(** * Ocean Tasks (todo_app_frontend/src/App.js): state model and its transitions

    A shallow embedding of the task state kept by the [App] component: the
    task collection, the transient session state, the handlers that change
    them, the filtered view, and the start-up load from [localStorage].

    Conventions of the embedding:
    - a JavaScript string is the list of its UTF-16 code units;
    - [Date.now()] and [Math.random()] are answered by the [World], which
      records how many times each has been called;
    - [String.prototype.toLowerCase] needs the Unicode case tables, which
      are not part of the program: it is a parameter of the development;
    - a handler runs against the state of the render that created it, which
      for a discrete event is the current state, so a handler is a function
      from the current state to the next one. *)

From Stdlib Require Import List ZArith NArith Bool String Ascii Lia Permutation.
Import ListNotations.

(* ================================================================= *)
(** ** JavaScript strings *)

Definition codeunit := N.
Definition jsstring := list codeunit.

(** A literal of the source, as code units (the literals used are ASCII). *)
Definition js (s : string) : jsstring :=
  List.map N_of_ascii (list_ascii_of_string s).

Definition jsstring_eq_dec : forall a b : jsstring, {a = b} + {a <> b} :=
  list_eq_dec N.eq_dec.

(** [a === b] on two strings. *)
Definition strict_eq (a b : jsstring) : bool :=
  if jsstring_eq_dec a b then true else false.

(** [!s] is true of the empty string only; a non-empty string is truthy. *)
Definition truthy (s : jsstring) : bool :=
  match s with [] => false | _ :: _ => true end.

(** The code units removed by [String.prototype.trim]: WhiteSpace and
    LineTerminator of ECMAScript. *)
Definition is_white (c : codeunit) : bool :=
  ((9 <=? c) && (c <=? 13) || (c =? 32) || (c =? 160) || (c =? 0x1680)
   || (0x2000 <=? c) && (c <=? 0x200A)
   || (c =? 0x2028) || (c =? 0x2029) || (c =? 0x202F) || (c =? 0x205F)
   || (c =? 0x3000) || (c =? 0xFEFF))%N.

Fixpoint trimStart (s : jsstring) : jsstring :=
  match s with
  | [] => []
  | c :: s' => if is_white c then trimStart s' else s
  end.

Definition trimEnd (s : jsstring) : jsstring := rev (trimStart (rev s)).

Definition trim (s : jsstring) : jsstring := trimEnd (trimStart s).

(** [s.slice(b, e)] for [0 <= b <= e]. *)
Definition slice (b e : nat) (s : jsstring) : jsstring :=
  firstn (e - b) (skipn b s).

Fixpoint startsWith (s p : jsstring) : bool :=
  match p, s with
  | [], _ => true
  | _ :: _, [] => false
  | c :: p', d :: s' => (c =? d)%N && startsWith s' p'
  end.

(** [s.includes(p)]: [p] occurs in [s] at some position. *)
Fixpoint includes (s p : jsstring) : bool :=
  startsWith s p ||
  match s with
  | [] => false
  | _ :: s' => includes s' p
  end.

(** [p] occurs in [s] as a contiguous run of code units. *)
Definition Substring (p s : jsstring) : Prop :=
  exists pre post, s = pre ++ p ++ post.

(** Lower case on the ASCII letters only: an instance of the [toLowerCase]
    parameter for strings without other cased letters. *)
Definition lower_ascii_unit (c : codeunit) : codeunit :=
  if ((65 <=? c) && (c <=? 90))%N then (c + 32)%N else c.

Definition toLowerCase_ascii (s : jsstring) : jsstring :=
  List.map lower_ascii_unit s.


(* ================================================================= *)
(** ** JSON values and [JSON.parse] *)

(** The values [JSON.parse] can return.  A number keeps the text of its
    literal (the double it denotes is not computed); an object keeps its
    members in source order. *)
#[warnings="-register-all"]
Inductive json : Type :=
| JNull : json
| JBool : bool -> json
| JNumber : jsstring -> json
| JString : jsstring -> json
| JArray : list json -> json
| JObject : list (jsstring * json) -> json.

(** The outcome of evaluating an expression that may throw. *)
Inductive completion (A : Type) : Type :=
| Normal : A -> completion A
| Throw : completion A.
Arguments Normal {A} _.
Arguments Throw {A}.

Definition cu (a : ascii) : codeunit := N_of_ascii a.

(** The quotation mark and the reverse solidus. *)
Definition quote : codeunit := 34%N.
Definition backslash : codeunit := 92%N.

Definition is_json_ws (c : codeunit) : bool :=
  ((c =? 32) || (c =? 9) || (c =? 10) || (c =? 13))%N.

Fixpoint skip_ws (s : jsstring) : jsstring :=
  match s with
  | [] => []
  | c :: s' => if is_json_ws c then skip_ws s' else s
  end.

Definition is_digit (c : codeunit) : bool := ((48 <=? c) && (c <=? 57))%N.

(** The longest prefix of digits, and what follows it. *)
Fixpoint digits (s : jsstring) : jsstring * jsstring :=
  match s with
  | [] => ([], [])
  | c :: s' =>
      if is_digit c then let (ds, r) := digits s' in (c :: ds, r)
      else ([], s)
  end.

Definition hex_digit (c : codeunit) : option N :=
  if is_digit c then Some (c - 48)%N
  else if ((97 <=? c) && (c <=? 102))%N then Some (c - 87)%N
  else if ((65 <=? c) && (c <=? 70))%N then Some (c - 55)%N
  else None.

Definition hex4 (a b c d : codeunit) : option codeunit :=
  match hex_digit a, hex_digit b, hex_digit c, hex_digit d with
  | Some x, Some y, Some z, Some t => Some (((x * 16 + y) * 16 + z) * 16 + t)%N
  | _, _, _, _ => None
  end.

(** The code unit a one-letter escape stands for. *)
Definition escape (e : codeunit) : option codeunit :=
  if (e =? quote)%N then Some quote
  else if (e =? backslash)%N then Some backslash
  else if (e =? cu "/")%N then Some 47%N
  else if (e =? cu "b")%N then Some 8%N
  else if (e =? cu "f")%N then Some 12%N
  else if (e =? cu "n")%N then Some 10%N
  else if (e =? cu "r")%N then Some 13%N
  else if (e =? cu "t")%N then Some 9%N
  else None.

(** The characters of a string literal after its opening quote, up to and
    including the closing quote. *)
Fixpoint parse_chars (s acc : jsstring) : option (jsstring * jsstring) :=
  match s with
  | [] => None
  | c :: s1 =>
      if (c =? quote)%N then Some (rev acc, s1)
      else if (c =? backslash)%N then
        match s1 with
        | [] => None
        | e :: s2 =>
            if (e =? cu "u")%N then
              match s2 with
              | h1 :: h2 :: h3 :: h4 :: s3 =>
                  match hex4 h1 h2 h3 h4 with
                  | Some u => parse_chars s3 (u :: acc)
                  | None => None
                  end
              | _ => None
              end
            else
              match escape e with
              | Some u => parse_chars s2 (u :: acc)
              | None => None
              end
        end
      else if (c <? 32)%N then None
      else parse_chars s1 (c :: acc)
  end.

(** A number literal: an optional minus sign; an integer part, which is
    a single 0 or a non-zero digit followed by digits; an optional fraction,
    a point followed by at least one digit; an optional exponent, e or E,
    an optional sign and at least one digit. *)
Definition parse_int (s : jsstring) : option (jsstring * jsstring) :=
  match s with
  | [] => None
  | c :: r =>
      if (c =? 48)%N then Some ([c], r)
      else if is_digit c then let (ds, r') := digits r in Some (c :: ds, r')
      else None
  end.

Definition parse_frac (s : jsstring) : option (jsstring * jsstring) :=
  match s with
  | c :: r =>
      if (c =? cu ".")%N then
        match digits r with
        | ([], _) => None
        | (ds, r') => Some (c :: ds, r')
        end
      else Some ([], s)
  | [] => Some ([], s)
  end.

Definition parse_exp (s : jsstring) : option (jsstring * jsstring) :=
  match s with
  | c :: r =>
      if ((c =? cu "e") || (c =? cu "E"))%N then
        let (sg, r1) :=
          match r with
          | g :: r0 =>
              if ((g =? cu "+") || (g =? cu "-"))%N then ([g], r0) else ([], r)
          | [] => ([], r)
          end in
        match digits r1 with
        | ([], _) => None
        | (ds, r') => Some (c :: sg ++ ds, r')
        end
      else Some ([], s)
  | [] => Some ([], s)
  end.

Definition parse_number (s : jsstring) : option (jsstring * jsstring) :=
  let (sg, s1) :=
    match s with
    | c :: r => if (c =? cu "-")%N then ([c], r) else ([], s)
    | [] => ([], s)
    end in
  match parse_int s1 with
  | None => None
  | Some (i, s2) =>
      match parse_frac s2 with
      | None => None
      | Some (f, s3) =>
          match parse_exp s3 with
          | None => None
          | Some (e, s4) => Some (sg ++ i ++ f ++ e, s4)
          end
      end
  end.

Definition parse_word (w : string) (v : json) (s : jsstring)
  : option (json * jsstring) :=
  if startsWith s (js w) then Some (v, skipn (List.length (js w)) s) else None.

(** Recursive descent over values, array elements and object members.  Each
    call spends one unit of [fuel]; a value spends at least one code unit
    before it descends, so twice the length of the text is enough. *)
Fixpoint parse_value (fuel : nat) (s : jsstring) : option (json * jsstring) :=
  match fuel with
  | O => None
  | S n =>
      match skip_ws s with
      | [] => None
      | c :: r =>
          if (c =? cu "[")%N then
            match skip_ws r with
            | [] => None
            | c2 :: r2 =>
                if (c2 =? cu "]")%N then Some (JArray [], r2)
                else parse_elements n (c2 :: r2) []
            end
          else if (c =? cu "{")%N then
            match skip_ws r with
            | [] => None
            | c2 :: r2 =>
                if (c2 =? cu "}")%N then Some (JObject [], r2)
                else parse_members n (c2 :: r2) []
            end
          else if (c =? quote)%N then
            match parse_chars r [] with
            | Some (str, r') => Some (JString str, r')
            | None => None
            end
          else if (c =? cu "t")%N then parse_word "true" (JBool true) (c :: r)
          else if (c =? cu "f")%N then parse_word "false" (JBool false) (c :: r)
          else if (c =? cu "n")%N then parse_word "null" JNull (c :: r)
          else
            match parse_number (c :: r) with
            | Some (lexeme, r') => Some (JNumber lexeme, r')
            | None => None
            end
      end
  end
with parse_elements (fuel : nat) (s : jsstring) (acc : list json)
  : option (json * jsstring) :=
  match fuel with
  | O => None
  | S n =>
      match parse_value n s with
      | None => None
      | Some (v, r) =>
          match skip_ws r with
          | [] => None
          | c :: r' =>
              if (c =? cu ",")%N then parse_elements n r' (v :: acc)
              else if (c =? cu "]")%N then Some (JArray (rev (v :: acc)), r')
              else None
          end
      end
  end
with parse_members (fuel : nat) (s : jsstring) (acc : list (jsstring * json))
  : option (json * jsstring) :=
  match fuel with
  | O => None
  | S n =>
      match skip_ws s with
      | [] => None
      | q :: r =>
          if (q =? quote)%N then
            match parse_chars r [] with
            | None => None
            | Some (key, r1) =>
                match skip_ws r1 with
                | [] => None
                | c :: r2 =>
                    if (c =? cu ":")%N then
                      match parse_value n r2 with
                      | None => None
                      | Some (v, r3) =>
                          match skip_ws r3 with
                          | [] => None
                          | d :: r4 =>
                              if (d =? cu ",")%N then
                                parse_members n r4 ((key, v) :: acc)
                              else if (d =? cu "}")%N then
                                Some (JObject (rev ((key, v) :: acc)), r4)
                              else None
                          end
                      end
                    else None
                end
            end
          else None
      end
  end.

(** [JSON.parse(text)]: the value, or [Throw] for the SyntaxError raised
    when [text] is not one JSON value between optional white space. *)
Definition JSON_parse (text : jsstring) : completion json :=
  match parse_value (2 * List.length text + 2) text with
  | Some (v, r) =>
      match skip_ws r with
      | [] => Normal v
      | _ :: _ => Throw
      end
  | None => Throw
  end.

(** A JSON text written with an apostrophe for each quotation mark. *)
Definition json_text (s : string) : jsstring :=
  List.map (fun c => if (c =? cu "'")%N then quote else c) (js s).

(** The value of property [k] of an object: the last member named [k]. *)
Fixpoint get_prop (k : jsstring) (members : list (jsstring * json))
  : option json :=
  match members with
  | [] => None
  | (k', v) :: rest =>
      match get_prop k rest with
      | Some v' => Some v'
      | None => if strict_eq k' k then Some v else None
      end
  end.

Definition is_JString (v : option json) : bool :=
  match v with Some (JString _) => true | _ => false end.
Definition is_JBool (v : option json) : bool :=
  match v with Some (JBool _) => true | _ => false end.
Definition is_JNumber (v : option json) : bool :=
  match v with Some (JNumber _) => true | _ => false end.

(** The shape of the [Task] typedef: an object with a string [id], a string
    [title], a boolean [completed] and numbers [createdAt], [updatedAt]. *)
Definition is_task (v : json) : bool :=
  match v with
  | JObject ms =>
      is_JString (get_prop (js "id") ms)
      && is_JString (get_prop (js "title") ms)
      && is_JBool (get_prop (js "completed") ms)
      && is_JNumber (get_prop (js "createdAt") ms)
      && is_JNumber (get_prop (js "updatedAt") ms)
  | _ => false
  end.

(** A well-formed task collection: an array of tasks. *)
Definition is_task_collection (v : json) : bool :=
  match v with
  | JArray l => forallb is_task l
  | _ => false
  end.

(* ================================================================= *)
(** ** Tasks and session state *)

(** The [Task] typedef.  Timestamps are the integers [Date.now()] returns. *)
Record Task : Type := mkTask {
  id : jsstring;
  title : jsstring;
  completed : bool;
  createdAt : Z;
  updatedAt : Z
}.

(** The three values the [filter] state takes: 'all', 'active', 'completed'. *)
Inductive Filter : Type := All | Active | Completed.

(** The state variables of [App]; [editingId] is [None] for [null]. *)
Record State : Type := mkState {
  theme : jsstring;
  tasks : list Task;
  filter : Filter;
  query : jsstring;
  draft : jsstring;
  editingId : option jsstring;
  editingTitle : jsstring
}.

Definition setTheme (v : jsstring) (s : State) : State :=
  mkState v (tasks s) (filter s) (query s) (draft s)
          (editingId s) (editingTitle s).
Definition setTasks (v : list Task) (s : State) : State :=
  mkState (theme s) v (filter s) (query s) (draft s)
          (editingId s) (editingTitle s).
Definition setFilter (v : Filter) (s : State) : State :=
  mkState (theme s) (tasks s) v (query s) (draft s)
          (editingId s) (editingTitle s).
Definition setQuery (v : jsstring) (s : State) : State :=
  mkState (theme s) (tasks s) (filter s) v (draft s)
          (editingId s) (editingTitle s).
Definition setDraft (v : jsstring) (s : State) : State :=
  mkState (theme s) (tasks s) (filter s) (query s) v
          (editingId s) (editingTitle s).
Definition setEditingId (v : option jsstring) (s : State) : State :=
  mkState (theme s) (tasks s) (filter s) (query s) (draft s)
          v (editingTitle s).
Definition setEditingTitle (v : jsstring) (s : State) : State :=
  mkState (theme s) (tasks s) (filter s) (query s) (draft s)
          (editingId s) v.

(** [!editingId]: true of [null] and of the empty string. *)
Definition falsy_id (e : option jsstring) : bool :=
  match e with
  | None => true
  | Some x => negb (truthy x)
  end.

(** [editingId === x] for a string [x]. *)
Definition id_is (e : option jsstring) (x : jsstring) : bool :=
  match e with
  | None => false
  | Some y => strict_eq y x
  end.

(* ================================================================= *)
(** ** The world: clock and random source *)

(** [clock k] is what the [k]-th call of [Date.now()] returns, and
    [random36 k] is [Math.random().toString(36)] at the [k]-th call of
    [Math.random()]; the counters say how many calls were made so far. *)
Record World : Type := mkWorld {
  clock : nat -> Z;
  now_calls : nat;
  random36 : nat -> jsstring;
  random_calls : nat
}.

Definition Eff (A : Type) : Type := World -> A * World.

Definition ret {A : Type} (a : A) : Eff A := fun w => (a, w).

Definition bind {A B : Type} (m : Eff A) (k : A -> Eff B) : Eff B :=
  fun w => let (a, w') := m w in k a w'.

Notation "x <- m ;; k" := (bind m (fun x => k))
  (at level 61, m at next level, right associativity).

Definition Date_now : Eff Z :=
  fun w => (clock w (now_calls w),
            mkWorld (clock w) (S (now_calls w)) (random36 w) (random_calls w)).

Definition Math_random_toString36 : Eff jsstring :=
  fun w => (random36 w (random_calls w),
            mkWorld (clock w) (now_calls w) (random36 w) (S (random_calls w))).

(** [const uid = () => Math.random().toString(36).slice(2, 10)] *)
Definition uid : Eff jsstring :=
  r <- Math_random_toString36 ;; ret (slice 2 10 r).

(** [l.map(f)] for a callback with effects: left to right. *)
Fixpoint mapM {A B : Type} (f : A -> Eff B) (l : list A) : Eff (list B) :=
  match l with
  | [] => ret []
  | a :: l' => b <- f a ;; bs <- mapM f l' ;; ret (b :: bs)
  end.

(* ================================================================= *)
(** ** The handlers of [App] *)

Definition addTask (title_ : jsstring) (s : State) : Eff State :=
  let trimmed := trim title_ in
  if negb (truthy trimmed) then ret s
  else
    now <- Date_now ;;
    i <- uid ;;
    let newTask := mkTask i trimmed false now now in
    ret (setDraft [] (setTasks (newTask :: tasks s) s)).

(** The callback of [toggleTask]:
    [t.id === id ? { ...t, completed: !t.completed, updatedAt: Date.now() } : t] *)
Definition toggled (x : jsstring) (t : Task) : Eff Task :=
  if strict_eq (id t) x then
    now <- Date_now ;;
    ret (mkTask (id t) (title t) (negb (completed t)) (createdAt t) now)
  else ret t.

Definition toggleTask (x : jsstring) (s : State) : Eff State :=
  ts <- mapM (toggled x) (tasks s) ;;
  ret (setTasks ts s).

Definition removeTask (x : jsstring) (s : State) : State :=
  let s1 :=
    setTasks (List.filter (fun t => negb (strict_eq (id t) x)) (tasks s)) s in
  if id_is (editingId s) x
  then setEditingTitle [] (setEditingId None s1)
  else s1.

Definition beginEdit (task : Task) (s : State) : State :=
  setEditingTitle (title task) (setEditingId (Some (id task)) s).

(** The callback of [commitEdit]:
    [t.id === editingId ? { ...t, title, updatedAt: Date.now() } : t] *)
Definition retitled (e title_ : jsstring) (t : Task) : Eff Task :=
  if strict_eq (id t) e then
    now <- Date_now ;;
    ret (mkTask (id t) title_ (completed t) (createdAt t) now)
  else ret t.

Definition commitEdit (s : State) : Eff State :=
  let title_ := trim (editingTitle s) in
  if falsy_id (editingId s) then ret s
  else
    match editingId s with
    | None => ret s
    | Some e =>
        if negb (truthy title_) then
          (* empty title on edit deletes the task *)
          ret (removeTask e s)
        else
          ts <- mapM (retitled e title_) (tasks s) ;;
          ret (setEditingTitle [] (setEditingId None (setTasks ts s)))
    end.

(** The Escape key in the inline editor. *)
Definition cancelEdit (s : State) : State :=
  setEditingTitle [] (setEditingId None s).

Definition clearCompleted (s : State) : State :=
  setTasks (List.filter (fun t => negb (completed t)) (tasks s)) s.

Definition toggleTheme (s : State) : State :=
  setTheme (if strict_eq (theme s) (js "light")
            then js "dark" else js "light") s.

Definition remaining (s : State) : nat :=
  List.length (List.filter (fun t => negb (completed t)) (tasks s)).

(** A run of [addTask], one call per title. *)
Fixpoint addTasks (titles : list jsstring) (s : State) : Eff State :=
  match titles with
  | [] => ret s
  | t :: rest => s' <- addTask t s ;; addTasks rest s'
  end.

(** Two calls of [toggleTask] with the same id, one after the other. *)
Definition toggleTwice (x : jsstring) (s : State) : Eff State :=
  s1 <- toggleTask x s ;; toggleTask x s1.

(** The state in which task [x] is under edit with buffered title [t]. *)
Definition editing (x t : jsstring) (s : State) : State :=
  setEditingTitle t (setEditingId (Some x) s).

(* ================================================================= *)
(** ** The filtered view *)

Section View.

Variable toLowerCase : jsstring -> jsstring.

Definition filtered (s : State) : list Task :=
  let q := toLowerCase (trim (query s)) in
  List.filter
    (fun t => if truthy q then includes (toLowerCase (title t)) q else true)
    (List.filter
       (fun t =>
          match filter s with
          | Active => negb (completed t)
          | Completed => completed t
          | All => true
          end)
       (tasks s)).

(** [q] occurs in [t] when case is ignored: the lower-cased [q] is a
    substring of the lower-cased [t]. *)
Definition ContainsIgnoringCase (q t : jsstring) : Prop :=
  Substring (toLowerCase q) (toLowerCase t).

End View.

(* ================================================================= *)
(** ** Start-up *)

(** [try { body } catch { handler }] *)
Definition try_catch {A : Type} (body handler : completion A) : completion A :=
  match body with
  | Normal a => Normal a
  | Throw => handler
  end.

(** The initializer of the [tasks] state.  [getItem] is the outcome of
    [localStorage.getItem('tasks')]: [null], a string, or an exception. *)
Definition initial_tasks (getItem : completion (option jsstring))
  : completion json :=
  try_catch
    match getItem with
    | Throw => Throw
    | Normal saved =>
        match saved with
        | Some text => if truthy text then JSON_parse text else Normal (JArray [])
        | None => Normal (JArray [])
        end
    end
    (Normal (JArray [])).

(** The initializer of the [theme] state: [saved || 'light']. *)
Definition initial_theme (saved : option jsstring) : jsstring :=
  match saved with
  | Some v => if truthy v then v else js "light"
  | None => js "light"
  end.

(* ================================================================= *)
(** ** Notions used by the statements *)

(** [l1] is [l2] with some elements left out, the others in their order. *)
Inductive Subsequence {A : Type} : list A -> list A -> Prop :=
| Subsequence_nil : Subsequence [] []
| Subsequence_keep : forall a l1 l2,
    Subsequence l1 l2 -> Subsequence (a :: l1) (a :: l2)
| Subsequence_drop : forall a l1 l2,
    Subsequence l1 l2 -> Subsequence l1 (a :: l2).

(** The narrowing by [filter]. *)
Definition passes (f : Filter) (t : Task) : bool :=
  match f with
  | All => true
  | Active => negb (completed t)
  | Completed => completed t
  end.

(** The ids of a collection, in order. *)
Definition ids (ts : list Task) : list jsstring := List.map id ts.

(** The ids the next [n] calls of [uid] return in world [w]. *)
Definition drawn_ids (w : World) (n : nat) : list jsstring :=
  List.map (fun k => slice 2 10 (random36 w k)) (seq (random_calls w) n).

Definition nonblank (t : jsstring) : bool := truthy (trim t).

(** [w'] is [w] after some more calls of [Date.now()]. *)
Definition clock_read (w w' : World) : Prop :=
  clock w' = clock w
  /\ (now_calls w <= now_calls w')%nat
  /\ random36 w' = random36 w
  /\ random_calls w' = random_calls w.

(* ================================================================= *)
(** ** Sample worlds and states *)

(** No task, nothing under edit, as on a first run. *)
Definition empty_state : State :=
  mkState (js "light") [] All [] [] None [].

(** A clock that advances by a millisecond per call, and a random source
    whose [k]-th draw renders as "0." followed by the [k]-th letter. *)
Definition world_ticking : World :=
  mkWorld (fun k => 1700000000000 + Z.of_nat k)%Z 0
          (fun k => js "0." ++ [(97 + N.of_nat k)%N]) 0.

(** [Math.random()] answers 0.5, which renders as "0.i", at every call. *)
Definition world_half : World :=
  mkWorld (fun k => 1700000000000 + Z.of_nat k)%Z 0
          (fun _ => js "0.i") 0.

(** [Math.random()] answers 0, which renders as "0", at every call. *)
Definition world_zero : World :=
  mkWorld (fun k => 1700000000000 + Z.of_nat k)%Z 0
          (fun _ => js "0") 0.

(** The system clock is set back after the first call of [Date.now()]. *)
Definition world_set_back : World :=
  mkWorld (fun k => match k with
                    | O => 1700000000000
                    | S _ => 1600000000000
                    end)%Z 0
          (fun k => js "0." ++ [(97 + N.of_nat k)%N]) 0.

Definition milk : Task :=
  mkTask (js "4fzyo82m") (js "Buy milk") false 1699999999000 1699999999000.

Definition bills : Task :=
  mkTask (js "k3x9q0ab") (js "Pay bills") true 1699999998000 1699999998500.

Definition two_tasks : State :=
  mkState (js "light") [milk; bills] All [] [] None [].

(** A task whose id is the empty string, which [uid] returns when
    [Math.random()] answers 0 (rendered "0"), here under edit with the
    editor emptied. *)
Definition nameless : Task :=
  mkTask [] (js "Call mum") false 1699999999000 1699999999000.

Definition editing_nameless : State :=
  editing [] [] (mkState (js "light") [nameless; milk] All [] [] None []).

From Stdlib Require DecimalPos DecimalZ.

(* ================================================================= *)
(** ** What the rendered page derives from the state *)

(** [disabled={!draft.trim()}] of the Add Task button. *)
Definition add_disabled (s : State) : bool := negb (truthy (trim (draft s))).

(** [disabled={tasks.every((t) => !t.completed)}] of the Clear Completed
    button. *)
Definition clear_disabled (s : State) : bool :=
  forallb (fun t => negb (completed t)) (tasks s).

(** The click handler of the edit/save button of a row:
    [editingId === task.id ? commitEdit() : beginEdit(task)]. *)
Definition editButton (task : Task) (s : State) : Eff State :=
  if id_is (editingId s) (id task) then commitEdit s
  else ret (beginEdit task s).

(* ================================================================= *)
(** ** The events of the page *)

(** One constructor per callback of the JSX: the search box and the draft
    box ([onChange]), the form ([onSubmit]), the three tabs, the Clear
    Completed button, the theme button, and for a row its check box, the
    double click on its title, its inline editor ([onChange], Enter or
    blur, Escape), its edit/save button and its delete button. *)
Inductive Event : Type :=
| ChangeQuery (v : jsstring)
| ChangeDraft (v : jsstring)
| Submit
| SelectFilter (f : Filter)
| ClickClearCompleted
| ClickTheme
| ClickCheckbox (task : Task)
| DoubleClickTitle (task : Task)
| ChangeEditor (v : jsstring)
| CommitEditor
| EscapeEditor
| ClickEdit (task : Task)
| ClickDelete (task : Task).

Definition handle (e : Event) (s : State) : Eff State :=
  match e with
  | ChangeQuery v => ret (setQuery v s)
  | ChangeDraft v => ret (setDraft v s)
  | Submit => addTask (draft s) s
  | SelectFilter f => ret (setFilter f s)
  | ClickClearCompleted => ret (clearCompleted s)
  | ClickTheme => ret (toggleTheme s)
  | ClickCheckbox task => toggleTask (id task) s
  | DoubleClickTitle task => ret (beginEdit task s)
  | ChangeEditor v => ret (setEditingTitle v s)
  | CommitEditor => commitEdit s
  | EscapeEditor => ret (cancelEdit s)
  | ClickEdit task => editButton task s
  | ClickDelete task => ret (removeTask (id task) s)
  end.

(** A session: the events in the order they are dispatched. *)
Fixpoint run (events : list Event) (s : State) : Eff State :=
  match events with
  | [] => ret s
  | e :: rest => s' <- handle e s ;; run rest s'
  end.

(* ================================================================= *)
(** ** Invariants of the collection *)

(** The first code unit, if there is one, is no white space. *)
Definition head_not_white (s : jsstring) : Prop :=
  match s with
  | [] => True
  | c :: _ => is_white c = false
  end.

(** No leading and no trailing white space. *)
Definition Trimmed (s : jsstring) : Prop := trim s = s.

(** Every title is non-empty and trimmed. *)
Definition titles_ok (ts : list Task) : Prop :=
  Forall (fun t => title t <> [] /\ Trimmed (title t)) ts.

(** Every task carries two readings of the clock of [w], both taken
    already, the one for [createdAt] not after the one for [updatedAt]. *)
Definition stamped (w : World) (ts : list Task) : Prop :=
  Forall (fun t => exists i j,
              (i <= j < now_calls w)%nat
              /\ createdAt t = clock w i
              /\ updatedAt t = clock w j) ts.

(** The clock of [w] never goes backwards. *)
Definition monotone_clock (w : World) : Prop :=
  forall i j, (i <= j)%nat -> (clock w i <= clock w j)%Z.

(** How many tasks of the collection have the id [x]. *)
Definition count_id (x : jsstring) (ts : list Task) : nat :=
  List.length (List.filter (fun t => strict_eq (id t) x) ts).

(** The shape the callbacks of [toggleTask] and [commitEdit] share: a task
    with id [x] is rebuilt by [g] from itself and a reading of the clock,
    any other task is returned as it is. *)
Definition stamp_matching (x : jsstring) (g : Task -> Z -> Task) (t : Task)
  : Eff Task :=
  if strict_eq (id t) x then now <- Date_now ;; ret (g t now) else ret t.

(** [w'] has the clock of [w] and at least as many calls of it. *)
Definition clock_advanced (w w' : World) : Prop :=
  clock w' = clock w /\ (now_calls w <= now_calls w')%nat.

(* ================================================================= *)
(** ** [JSON.stringify] of the collection *)

Definition is_high_surrogate (c : codeunit) : bool :=
  ((0xD800 <=? c) && (c <=? 0xDBFF))%N.

Definition is_low_surrogate (c : codeunit) : bool :=
  ((0xDC00 <=? c) && (c <=? 0xDFFF))%N.

(** The lower-case hexadecimal digit of a number below 16. *)
Definition to_hex_digit (d : N) : codeunit :=
  if (d <? 10)%N then (48 + d)%N else (87 + d)%N.

(** The six code units of the escape of a code unit by its number. *)
Definition unicode_escape (c : codeunit) : jsstring :=
  [backslash; cu "u";
   to_hex_digit (c / 4096); to_hex_digit ((c / 256) mod 16);
   to_hex_digit ((c / 16) mod 16); to_hex_digit (c mod 16)]%N.

(** How QuoteJSONString writes a code unit that is not part of a
    surrogate pair: the short escapes, the numbered escape for the other
    control characters and for a lone surrogate, the code unit itself
    otherwise. *)
Definition quote_unit (c : codeunit) : jsstring :=
  if (c =? 8)%N then [backslash; cu "b"]
  else if (c =? 9)%N then [backslash; cu "t"]
  else if (c =? 10)%N then [backslash; cu "n"]
  else if (c =? 12)%N then [backslash; cu "f"]
  else if (c =? 13)%N then [backslash; cu "r"]
  else if (c =? quote)%N then [backslash; quote]
  else if (c =? backslash)%N then [backslash; backslash]
  else if (c <? 32)%N || is_high_surrogate c || is_low_surrogate c
       then unicode_escape c
  else [c].

(** A high surrogate followed by a low one is a pair and is written as it
    is. *)
Fixpoint quote_units (s : jsstring) : jsstring :=
  match s with
  | [] => []
  | c :: r =>
      if is_high_surrogate c then
        match r with
        | d :: r' =>
            if is_low_surrogate d then c :: d :: quote_units r'
            else unicode_escape c ++ quote_units r
        | [] => unicode_escape c
        end
      else quote_unit c ++ quote_units r
  end.

(** QuoteJSONString. *)
Definition quote_string (s : jsstring) : jsstring :=
  quote :: quote_units s ++ [quote].

Fixpoint units_of_uint (d : Decimal.uint) : jsstring :=
  match d with
  | Decimal.Nil => []
  | Decimal.D0 d => 48%N :: units_of_uint d
  | Decimal.D1 d => 49%N :: units_of_uint d
  | Decimal.D2 d => 50%N :: units_of_uint d
  | Decimal.D3 d => 51%N :: units_of_uint d
  | Decimal.D4 d => 52%N :: units_of_uint d
  | Decimal.D5 d => 53%N :: units_of_uint d
  | Decimal.D6 d => 54%N :: units_of_uint d
  | Decimal.D7 d => 55%N :: units_of_uint d
  | Decimal.D8 d => 56%N :: units_of_uint d
  | Decimal.D9 d => 57%N :: units_of_uint d
  end.

(** The safe integers, [Number.MIN_SAFE_INTEGER] to
    [Number.MAX_SAFE_INTEGER]: the integers up to 2^53 - 1 in absolute
    value.  Each of them is a number of JavaScript, and the number a
    literal of plain digits for it denotes is that integer.  Every value of
    [Date.now()] is one (at most 8.64e15 in absolute value). *)
Definition safe_integer (z : Z) : bool :=
  (Z.abs z <=? 9007199254740991)%Z.

(** How a safe integer is written: its decimal digits, after a minus sign
    if it is negative.  (Beyond the safe integers a number need not be an
    integer of this model, and from 10^21 on JavaScript writes an exponent:
    the statements below apply this function to safe integers only.) *)
Definition Number_toString (z : Z) : jsstring :=
  match Z.to_int z with
  | Decimal.Pos d => units_of_uint d
  | Decimal.Neg d => cu "-" :: units_of_uint d
  end.

(** A task object has its properties in the order in which [addTask]
    creates them, which the spreads of [toggleTask] and [commitEdit]
    keep. *)
Definition stringify_task (t : Task) : jsstring :=
  cu "{" :: quote_string (js "id") ++ cu ":" :: quote_string (id t)
  ++ cu "," :: quote_string (js "title") ++ cu ":" :: quote_string (title t)
  ++ cu "," :: quote_string (js "completed")
  ++ cu ":" :: js (if completed t then "true" else "false")
  ++ cu "," :: quote_string (js "createdAt")
  ++ cu ":" :: Number_toString (createdAt t)
  ++ cu "," :: quote_string (js "updatedAt")
  ++ cu ":" :: Number_toString (updatedAt t)
  ++ [cu "}"].

Fixpoint stringify_elements (ts : list Task) : jsstring :=
  match ts with
  | [] => []
  | t :: rest =>
      match rest with
      | [] => stringify_task t
      | _ :: _ => stringify_task t ++ cu "," :: stringify_elements rest
      end
  end.

(** [JSON.stringify(tasks)] *)
Definition JSON_stringify_tasks (ts : list Task) : jsstring :=
  cu "[" :: stringify_elements ts ++ [cu "]"].

(** The JSON value of a task object, and of the collection. *)
Definition json_of_task (t : Task) : json :=
  JObject [(js "id", JString (id t));
           (js "title", JString (title t));
           (js "completed", JBool (completed t));
           (js "createdAt", JNumber (Number_toString (createdAt t)));
           (js "updatedAt", JNumber (Number_toString (updatedAt t)))].

Definition json_of_tasks (ts : list Task) : json :=
  JArray (List.map json_of_task ts).

(* ================================================================= *)
(** ** Reading a loaded value as a collection *)

Fixpoint uint_of_units (s : jsstring) : option Decimal.uint :=
  match s with
  | [] => Some Decimal.Nil
  | c :: r =>
      match uint_of_units r with
      | None => None
      | Some d =>
          if (c =? 48)%N then Some (Decimal.D0 d)
          else if (c =? 49)%N then Some (Decimal.D1 d)
          else if (c =? 50)%N then Some (Decimal.D2 d)
          else if (c =? 51)%N then Some (Decimal.D3 d)
          else if (c =? 52)%N then Some (Decimal.D4 d)
          else if (c =? 53)%N then Some (Decimal.D5 d)
          else if (c =? 54)%N then Some (Decimal.D6 d)
          else if (c =? 55)%N then Some (Decimal.D7 d)
          else if (c =? 56)%N then Some (Decimal.D8 d)
          else if (c =? 57)%N then Some (Decimal.D9 d)
          else None
      end
  end.

(** The integer that plain digits after an optional minus sign spell. *)
Definition Z_of_digits (s : jsstring) : option Z :=
  match s with
  | [] => None
  | c :: r =>
      if (c =? cu "-")%N then
        match uint_of_units r with
        | Some d => Some (Z.of_int (Decimal.Neg d))
        | None => None
        end
      else
        match uint_of_units s with
        | Some d => Some (Z.of_int (Decimal.Pos d))
        | None => None
        end
  end.

(** The timestamp a number literal is, when it is one the app itself
    writes: the literal of a safe integer, in the very digits
    [JSON.stringify] prints for it.  Any other literal (a fraction, an
    exponent, a minus zero, an integer beyond the safe ones, which
    [JSON.parse] rounds) denotes a number that is not a timestamp of this
    model, and is not read. *)
Definition Z_of_lexeme (s : jsstring) : option Z :=
  match Z_of_digits s with
  | Some z =>
      if safe_integer z && strict_eq (Number_toString z) s then Some z
      else None
  | None => None
  end.

(** The task a JSON object is, when it is an object as the app itself
    writes one: the five properties of the typedef and no other, in the
    order in which [addTask] creates them, with their types, the timestamps
    being safe integers.  An object of another make (more properties,
    another order, other numbers) is a JavaScript value that [Task] does
    not describe, and is not read. *)
Definition task_of_json (v : json) : option Task :=
  match v with
  | JObject [(k1, JString i); (k2, JString t); (k3, JBool c);
             (k4, JNumber a); (k5, JNumber b)] =>
      if strict_eq k1 (js "id") && strict_eq k2 (js "title")
         && strict_eq k3 (js "completed")
         && strict_eq k4 (js "createdAt") && strict_eq k5 (js "updatedAt")
      then
        match Z_of_lexeme a, Z_of_lexeme b with
        | Some x, Some y => Some (mkTask i t c x y)
        | _, _ => None
        end
      else None
  | _ => None
  end.

Fixpoint tasks_of_list (l : list json) : option (list Task) :=
  match l with
  | [] => Some []
  | v :: rest =>
      match task_of_json v, tasks_of_list rest with
      | Some t, Some ts => Some (t :: ts)
      | _, _ => None
      end
  end.

Definition tasks_of_json (v : json) : option (list Task) :=
  match v with
  | JArray l => tasks_of_list l
  | _ => None
  end.

(* ================================================================= *)
(** ** [localStorage] and the life of the component *)

(** The store: a string or nothing under each key. *)
Definition Storage : Type := jsstring -> option jsstring.

Definition getItem (k : jsstring) (st : Storage) : option jsstring := st k.

(** A write that succeeds. *)
Definition setItem (k v : jsstring) (st : Storage) : Storage :=
  fun k' => if strict_eq k' k then Some v else st k'.


(** The state of the first render, when the value the [tasks] initializer
    loads is a collection as the app writes one (the empty collection of
    the fallback is one): the two initializers that read the store, and
    the literals of the other [useState] calls.  For any other loaded
    value the state is outside what [State] describes, and the result is
    [None]. *)
Definition App_start (st : Storage) : option State :=
  match initial_tasks (Normal (getItem (js "tasks") st)) with
  | Normal v =>
      match tasks_of_json v with
      | Some ts =>
          Some (mkState (initial_theme (getItem (js "theme") st))
                        ts All [] [] None [])
      | None => None
      end
  | Throw => None
  end.

(* ================================================================= *)
(** ** Where a number literal ends *)

(** What follows is not a digit, a point or an exponent mark. *)
Definition number_end (rest : jsstring) : Prop :=
  match rest with
  | [] => True
  | c :: _ =>
      is_digit c = false /\ (c =? cu ".")%N = false
      /\ ((c =? cu "e") || (c =? cu "E"))%N = false
  end.

(* ================================================================= *)
(** ** Safe timestamps *)

Definition safe_timestamps (t : Task) : Prop :=
  safe_integer (createdAt t) = true /\ safe_integer (updatedAt t) = true.


(* ================================================================= *)
(** ** Facts about the built-ins *)

Lemma strict_eq_true (a b : jsstring) : strict_eq a b = true <-> a = b.
Proof.
  unfold strict_eq. destruct (jsstring_eq_dec a b); split; congruence.
Qed.

Lemma strict_eq_false (a b : jsstring) : strict_eq a b = false <-> a <> b.
Proof.
  unfold strict_eq. destruct (jsstring_eq_dec a b); split; congruence.
Qed.

Lemma strict_eq_refl (a : jsstring) : strict_eq a a = true.
Proof. now apply strict_eq_true. Qed.

Lemma truthy_false (s : jsstring) : truthy s = false <-> s = [].
Proof. destruct s; simpl; split; congruence. Qed.

Lemma truthy_true (s : jsstring) : truthy s = true <-> s <> [].
Proof. destruct s; simpl; split; congruence. Qed.

Lemma startsWith_prefix (p s : jsstring) :
  startsWith s p = true <-> exists post, s = p ++ post.
Proof.
  revert s. induction p as [|c p IH]; intros s.
  - destruct s; simpl; split; eauto.
  - destruct s as [|d s]; simpl.
    + split; [discriminate | intros [post H]; discriminate].
    + rewrite andb_true_iff, N.eqb_eq, IH. split.
      * intros [-> [post ->]]. now exists post.
      * intros [post H]. injection H as -> ->. eauto.
Qed.

Lemma includes_Substring (s p : jsstring) :
  includes s p = true <-> Substring p s.
Proof.
  unfold Substring. induction s as [|d s IH].
  - change (includes [] p) with (startsWith [] p || false).
    rewrite orb_false_r, startsWith_prefix. split.
    + intros [post H]. now exists [], post.
    + intros [pre [post H]].
      destruct pre; [now exists post | discriminate].
  - change (includes (d :: s) p)
      with (startsWith (d :: s) p || includes s p).
    rewrite orb_true_iff, startsWith_prefix, IH. split.
    + intros [[post H] | [pre [post H]]].
      * now exists [], post.
      * exists (d :: pre), post. simpl. now rewrite H.
    + intros [pre [post H]]. destruct pre as [|e pre].
      * left. now exists post.
      * right. injection H as -> ->. now exists pre, post.
Qed.

Lemma filter_Subsequence {A : Type} (f : A -> bool) (l : list A) :
  Subsequence (List.filter f l) l.
Proof.
  induction l as [|a l IH]; simpl.
  - constructor.
  - destruct (f a); now constructor.
Qed.

Lemma filter_all {A : Type} (f : A -> bool) (l : list A) :
  (forall a, In a l -> f a = true) -> List.filter f l = l.
Proof.
  induction l as [|a l IH]; simpl; intros H; [reflexivity|].
  rewrite (H a (or_introl eq_refl)). f_equal. apply IH. auto.
Qed.

(** A callback that returns its argument for every element, without any
    effect, leaves list and world as they are. *)
Lemma mapM_unchanged {A : Type} (f : A -> Eff A) (l : list A) (w : World) :
  (forall a, In a l -> f a = ret a) -> mapM f l w = (l, w).
Proof.
  induction l as [|a l IH]; simpl; intros H; [reflexivity|].
  unfold bind. rewrite (H a (or_introl eq_refl)). unfold ret at 1.
  rewrite IH by auto. reflexivity.
Qed.

Lemma setTasks_same (s : State) : setTasks (tasks s) s = s.
Proof. now destruct s. Qed.

(* ================================================================= *)
(** ** The fuel of [JSON_parse] is enough *)

Lemma skip_ws_length (s : jsstring) :
  (List.length (skip_ws s) <= List.length s)%nat.
Proof.
  induction s as [|c s IH]; simpl; [lia|].
  destruct (is_json_ws c); simpl; lia.
Qed.

Lemma digits_length (s : jsstring) :
  (List.length (snd (digits s)) <= List.length s)%nat.
Proof.
  induction s as [|c s IH]; simpl; [lia|].
  destruct (is_digit c); simpl; [|lia].
  destruct (digits s) as [ds r]. simpl in *. lia.
Qed.

(** One case analysis on the test or the scrutinee at the head of [H]. *)
Ltac parse_step H :=
  match type of H with
  | (if ?b then _ else _) = _ => destruct b eqn:?
  | match ?x with _ => _ end = _ => destruct x eqn:?
  | (let (_, _) := ?x in _) = _ => destruct x eqn:?
  end; cbn beta iota in H; try discriminate H.

Lemma parse_chars_length (s : jsstring) :
  forall acc str r,
    parse_chars s acc = Some (str, r) ->
    (List.length r < List.length s)%nat.
Proof.
  induction s as [s IH] using (well_founded_induction
                                 (Wf_nat.well_founded_ltof _ (@List.length _))).
  unfold Wf_nat.ltof in IH.
  intros acc str r H. destruct s as [|c s1]; [discriminate|].
  cbn [parse_chars] in H. repeat parse_step H; subst;
    try (injection H as _ <-; simpl; lia);
    apply IH in H; simpl in *; lia.
Qed.

Lemma parse_int_length (s i r : jsstring) :
  parse_int s = Some (i, r) -> (List.length r < List.length s)%nat.
Proof.
  intros H. destruct s as [|c t]; [discriminate|]. cbn [parse_int] in H.
  pose proof (digits_length t) as L.
  repeat parse_step H; injection H as _ <-; simpl in *; lia.
Qed.

Lemma parse_frac_length (s f r : jsstring) :
  parse_frac s = Some (f, r) -> (List.length r <= List.length s)%nat.
Proof.
  intros H. destruct s as [|c t]; cbn [parse_frac] in H.
  - injection H as _ <-. simpl. lia.
  - pose proof (digits_length t) as L.
    repeat parse_step H; injection H as _ <-; simpl in *; lia.
Qed.

Lemma parse_exp_length (s e r : jsstring) :
  parse_exp s = Some (e, r) -> (List.length r <= List.length s)%nat.
Proof.
  intros H. destruct s as [|c t]; cbn [parse_exp] in H.
  - injection H as _ <-. simpl. lia.
  - destruct ((c =? cu "e") || (c =? cu "E"))%N.
    + destruct t as [|g t0].
      * discriminate.
      * pose proof (digits_length t0) as L0.
        pose proof (digits_length (g :: t0)) as L1.
        destruct ((g =? cu "+") || (g =? cu "-"))%N;
          repeat parse_step H; injection H as _ <-; simpl in *; lia.
    + injection H as _ <-. simpl. lia.
Qed.

Lemma parse_number_length (s lexeme r : jsstring) :
  parse_number s = Some (lexeme, r) ->
  (List.length r < List.length s)%nat.
Proof.
  unfold parse_number. intros H.
  destruct (match s with
            | c :: r0 => if (c =? cu "-")%N then ([c], r0) else ([], s)
            | [] => ([], s)
            end) as [sg s1] eqn:E.
  assert (Hsign : (List.length s1 <= List.length s)%nat).
  { destruct s as [|c r0].
    - injection E as _ <-. lia.
    - destruct (c =? cu "-")%N; injection E as _ <-; simpl; lia. }
  destruct (parse_int s1) as [[i s2]|] eqn:E1; [|discriminate].
  destruct (parse_frac s2) as [[f s3]|] eqn:E2; [|discriminate].
  destruct (parse_exp s3) as [[e s4]|] eqn:E3; [|discriminate].
  injection H as _ <-.
  apply parse_int_length in E1. apply parse_frac_length in E2.
  apply parse_exp_length in E3. lia.
Qed.

Lemma parse_word_length (w : string) (v v' : json) (s r : jsstring) :
  js w <> [] ->
  parse_word w v s = Some (v', r) ->
  (List.length r < List.length s)%nat.
Proof.
  unfold parse_word. intros Hw H.
  destruct (startsWith s (js w)) eqn:E; [|discriminate].
  injection H as _ <-. apply startsWith_prefix in E as [post ->].
  rewrite skipn_app, Nat.sub_diag, skipn_all. simpl.
  rewrite length_app. destruct (js w); [congruence|]. simpl. lia.
Qed.

(** Record what the hypotheses about the parsers say on lengths. *)
Ltac parse_lengths :=
  repeat match goal with
  | E : ?p = (_, _) |- _ => is_var p; subst p
  end;
  repeat match goal with
  | E : skip_ws ?s = _ |- _ =>
      let L := fresh "L" in
      pose proof (skip_ws_length s) as L; rewrite E in L; simpl in L;
      revert E
  | E : parse_chars _ _ = Some _ |- _ =>
      let L := fresh "L" in
      pose proof (parse_chars_length _ _ _ _ E) as L; revert E
  | E : parse_number _ = Some _ |- _ =>
      let L := fresh "L" in
      pose proof (parse_number_length _ _ _ E) as L; revert E
  | E : parse_word _ _ _ = Some _ |- _ =>
      let L := fresh "L" in
      pose proof (fun W => parse_word_length _ _ _ _ _ W E) as L;
      specialize (L ltac:(discriminate)); revert E
  end; intros.

(** Put the equations found by case analysis back into the goal. *)
Ltac parse_replay :=
  repeat match goal with
  | E : ?x = _ |- context [?x] => rewrite E
  | F : forall m, _ -> parse_value m ?s = _ |- context [parse_value ?k ?s] =>
      rewrite (F k) by (simpl in *; lia)
  end.

Lemma parse_fuel_enough (n : nat) :
  (forall s v r,
      parse_value n s = Some (v, r) ->
      (List.length r < List.length s)%nat
      /\ forall m, (List.length s <= m + List.length r)%nat ->
                   parse_value m s = Some (v, r))
  /\ (forall s acc v r,
         parse_elements n s acc = Some (v, r) ->
         (List.length r < List.length s)%nat
         /\ forall m, (List.length s <= m + List.length r)%nat ->
                      parse_elements m s acc = Some (v, r))
  /\ (forall s acc v r,
         parse_members n s acc = Some (v, r) ->
         (List.length r < List.length s)%nat
         /\ forall m, (List.length s <= m + List.length r)%nat ->
                      parse_members m s acc = Some (v, r)).
Proof.
  induction n as [|n [IHv [IHe IHm]]].
  - repeat split; discriminate.
  - split; [|split].
    + intros s v r H. cbn [parse_value] in H.
      repeat parse_step H; parse_lengths;
        try (apply IHe in H as [Hl Hf]);
        try (apply IHm in H as [Hl Hf]);
        try (injection H as <- <-);
        (split; [simpl in *; lia|]);
        intros m Hm; (destruct m as [|m]; [simpl in *; lia|]);
        cbn [parse_value]; parse_replay;
        try reflexivity; try (apply Hf; simpl in *; lia).
    + intros s acc v r H. cbn [parse_elements] in H.
      repeat parse_step H; parse_lengths;
        repeat match goal with
        | E : parse_value n _ = Some _ |- _ => apply IHv in E as [? ?]
        end;
        try (apply IHe in H as [Hl Hf]);
        try (injection H as <- <-);
        (split; [simpl in *; lia|]);
        intros m Hm; (destruct m as [|m]; [simpl in *; lia|]);
        cbn [parse_elements]; parse_replay;
        try reflexivity; try (apply Hf; simpl in *; lia).
    + intros s acc v r H. cbn [parse_members] in H.
      repeat parse_step H; parse_lengths;
        repeat match goal with
        | E : parse_value n _ = Some _ |- _ => apply IHv in E as [? ?]
        end;
        try (apply IHm in H as [Hl Hf]);
        try (injection H as <- <-);
        (split; [simpl in *; lia|]);
        intros m Hm; (destruct m as [|m]; [simpl in *; lia|]);
        cbn [parse_members]; parse_replay;
        try reflexivity; try (apply Hf; simpl in *; lia).
Qed.

(** Whatever [parse_value] finds with some fuel, it finds with the fuel
    [JSON_parse] gives it: no text is rejected for lack of fuel. *)
Lemma JSON_parse_fuel_enough (n : nat) (text : jsstring) (v : json) (r : jsstring) :
  parse_value n text = Some (v, r) ->
  parse_value (2 * List.length text + 2) text = Some (v, r).
Proof.
  intros H. apply (proj1 (parse_fuel_enough n)) in H as [_ H].
  apply H. lia.
Qed.

(* ================================================================= *)
(** ** The handlers *)

(** C4.  [addTask] trims the title.  If nothing is left, state and world
    are returned as they were.  Otherwise the new collection is one new
    task in front of the old collection, and the new task carries the
    trimmed title, [completed = false] and [createdAt = updatedAt]. *)
Theorem addTask_prepends_trimmed (title_ : jsstring) (s : State) (w : World) :
  (trim title_ = [] -> addTask title_ s w = (s, w))
  /\ (trim title_ <> [] ->
      exists t,
        tasks (fst (addTask title_ s w)) = t :: tasks s
        /\ title t = trim title_
        /\ completed t = false
        /\ createdAt t = updatedAt t).
Proof.
  unfold addTask. split; intros H.
  - now rewrite H.
  - apply truthy_true in H. rewrite H. simpl.
    eexists. repeat split.
Qed.

Lemma addTask_prepends_trimmed_witness :
  addTask (js "   ") two_tasks world_ticking = (two_tasks, world_ticking)
  /\ exists t,
       tasks (fst (addTask (js "  Buy milk  ") two_tasks world_ticking))
       = t :: tasks two_tasks
       /\ title t = js "Buy milk"
       /\ completed t = false
       /\ createdAt t = updatedAt t.
Proof.
  split.
  - apply (addTask_prepends_trimmed (js "   ") two_tasks world_ticking).
    reflexivity.
  - apply (addTask_prepends_trimmed (js "  Buy milk  ") two_tasks world_ticking).
    discriminate.
Defined.

(** The spec's example of prepend order: after "A" then "B" the collection
    reads B, A. *)
Example add_A_then_B :
  List.map title (tasks (fst (addTasks [js "A"; js "B"] empty_state world_ticking)))
  = [js "B"; js "A"].
Proof. reflexivity. Qed.

(** C8.  [clearCompleted] keeps exactly the tasks with [completed = false]:
    none of the remaining tasks is completed, a task remains if and only if
    it was in the collection and is not completed, the remaining tasks are
    the old ones themselves, and they stand in their old order. *)
Theorem clearCompleted_removes_completed (s : State) :
  (forall t, In t (tasks (clearCompleted s)) -> completed t = false)
  /\ (forall t, In t (tasks (clearCompleted s))
                <-> In t (tasks s) /\ completed t = false)
  /\ Subsequence (tasks (clearCompleted s)) (tasks s)
  /\ tasks (clearCompleted s)
     = List.filter (fun t => negb (completed t)) (tasks s).
Proof.
  assert (E : forall t, In t (tasks (clearCompleted s))
                        <-> In t (tasks s) /\ completed t = false).
  { intros t. simpl. rewrite filter_In, negb_true_iff. reflexivity. }
  split; [|split; [exact E|split]].
  - intros t Ht. now apply E in Ht.
  - simpl. apply filter_Subsequence.
  - reflexivity.
Qed.

(** C9.  With no edit in progress, [commitEdit] changes nothing: the whole
    state, and the world, are returned as they were, whatever the buffered
    title. *)
Theorem commitEdit_idle_noop (s : State) (w : World) :
  editingId s = None -> commitEdit s w = (s, w).
Proof.
  intros H. unfold commitEdit. now rewrite H.
Qed.

Lemma commitEdit_idle_noop_witness :
  commitEdit (setEditingTitle (js "left over") two_tasks) world_ticking
  = (setEditingTitle (js "left over") two_tasks, world_ticking).
Proof.
  apply (commitEdit_idle_noop (setEditingTitle (js "left over") two_tasks)
                              world_ticking).
  reflexivity.
Defined.

(** C10.  [clearCompleted] changes the task collection only: the edit
    state and the rest of the session state are kept.  So when every task
    with the id under edit is completed, the id stays under edit although
    no task with it remains; [removeTask] of the task under edit, instead,
    resets the edit state. *)
Theorem clearCompleted_keeps_edit_state (s : State) :
  (editingId (clearCompleted s) = editingId s
   /\ editingTitle (clearCompleted s) = editingTitle s
   /\ theme (clearCompleted s) = theme s
   /\ filter (clearCompleted s) = filter s
   /\ query (clearCompleted s) = query s
   /\ draft (clearCompleted s) = draft s)
  /\ (forall x,
        editingId s = Some x ->
        (forall t, In t (tasks s) -> id t = x -> completed t = true) ->
        editingId (clearCompleted s) = Some x
        /\ forall t, In t (tasks (clearCompleted s)) -> id t <> x)
  /\ (forall x,
        editingId s = Some x ->
        editingId (removeTask x s) = None
        /\ editingTitle (removeTask x s) = []).
Proof.
  split; [repeat split|split].
  - intros x Hx Hall. split; [exact Hx|].
    intros t Ht Hid. simpl in Ht. apply filter_In in Ht as [Hin Hc].
    rewrite (Hall t Hin Hid) in Hc. discriminate.
  - intros x Hx. unfold removeTask. rewrite Hx. simpl.
    rewrite strict_eq_refl. split; reflexivity.
Qed.

(** The completed task "Pay bills" is under edit when the completed tasks
    are cleared. *)
Lemma clearCompleted_keeps_edit_state_witness :
  In bills (tasks (beginEdit bills two_tasks))
  /\ editingId (clearCompleted (beginEdit bills two_tasks)) = Some (id bills)
  /\ (forall t, In t (tasks (clearCompleted (beginEdit bills two_tasks)))
                -> id t <> id bills)
  /\ editingId (removeTask (id bills) (beginEdit bills two_tasks)) = None.
Proof.
  pose proof (clearCompleted_keeps_edit_state (beginEdit bills two_tasks))
    as [_ [Hclear Hremove]].
  split; [simpl; auto|].
  destruct (Hclear (id bills) eq_refl) as [H1 H2].
  { intros t [<- | [<- | []]]; [discriminate | reflexivity]. }
  destruct (Hremove (id bills) eq_refl) as [H3 _].
  auto.
Defined.

(** C7.  For an id [x] that no task of the collection has: [toggleTask x]
    returns state and world as they were; [removeTask x] leaves the
    collection as it was; and [commitEdit] of [x] with a title that is not
    blank returns, reads no clock, and leaves the collection as it was.
    The handlers are total functions: none of them can fail. *)
Theorem stale_id_noop (s : State) (w : World) (x : jsstring) :
  (forall t, In t (tasks s) -> id t <> x) ->
  toggleTask x s w = (s, w)
  /\ tasks (removeTask x s) = tasks s
  /\ (forall t, trim t <> [] ->
        exists s', commitEdit (editing x t s) w = (s', w)
                   /\ tasks s' = tasks s).
Proof.
  intros Hstale.
  assert (Hneq : forall t, In t (tasks s) -> strict_eq (id t) x = false).
  { intros t Ht. apply strict_eq_false. auto. }
  split; [|split].
  - unfold toggleTask, bind. rewrite mapM_unchanged.
    + unfold ret. now rewrite setTasks_same.
    + intros t Ht. unfold toggled. now rewrite (Hneq t Ht).
  - assert (E : List.filter (fun t => negb (strict_eq (id t) x)) (tasks s)
                = tasks s).
    { apply filter_all. intros t Ht. now rewrite (Hneq t Ht). }
    unfold removeTask. destruct (id_is (editingId s) x); simpl; exact E.
  - intros t Ht. unfold commitEdit. simpl.
    destruct (truthy x) eqn:Hx; simpl.
    + apply truthy_true in Ht. rewrite Ht. simpl.
      unfold bind. rewrite mapM_unchanged.
      * eexists. split; reflexivity.
      * intros t0 Ht0. unfold retitled. now rewrite (Hneq t0 Ht0).
    + eexists. split; reflexivity.
Qed.

Lemma stale_id_noop_witness :
  toggleTask (js "gone0000") two_tasks world_ticking
  = (two_tasks, world_ticking)
  /\ tasks (removeTask (js "gone0000") two_tasks) = tasks two_tasks
  /\ exists s',
       commitEdit (editing (js "gone0000") (js "x") two_tasks) world_ticking
       = (s', world_ticking)
       /\ tasks s' = tasks two_tasks.
Proof.
  destruct (stale_id_noop two_tasks world_ticking (js "gone0000"))
    as [H1 [H2 H3]].
  { intros t [<- | [<- | []]]; discriminate. }
  split; [exact H1|]. split; [exact H2|].
  apply (H3 (js "x")). discriminate.
Defined.

(** Where the code deletes on a blank commit.  When a task id [x] that is
    not the empty string is under edit and the buffered title is blank,
    [commitEdit] does what [removeTask x] does, on the whole state: the
    tasks with id [x] are gone, every other task remains, as it was and in
    its place. *)
Theorem commitEdit_blank_is_remove (s : State) (w : World) (x : jsstring) :
  editingId s = Some x ->
  x <> [] ->
  trim (editingTitle s) = [] ->
  commitEdit s w = (removeTask x s, w)
  /\ (forall t, In t (tasks (removeTask x s)) <-> In t (tasks s) /\ id t <> x)
  /\ Subsequence (tasks (removeTask x s)) (tasks s).
Proof.
  intros He Hx Ht.
  assert (E : tasks (removeTask x s)
              = List.filter (fun t => negb (strict_eq (id t) x)) (tasks s)).
  { unfold removeTask. now destruct (id_is (editingId s) x). }
  split; [|split].
  - unfold commitEdit. rewrite He, Ht. simpl.
    apply truthy_true in Hx. now rewrite Hx.
  - intros t. rewrite E, filter_In, negb_true_iff, strict_eq_false.
    reflexivity.
  - rewrite E. apply filter_Subsequence.
Qed.

Lemma commitEdit_blank_is_remove_witness :
  commitEdit (editing (id milk) (js "  ") two_tasks) world_ticking
  = (removeTask (id milk) (editing (id milk) (js "  ") two_tasks),
     world_ticking)
  /\ tasks (removeTask (id milk) (editing (id milk) (js "  ") two_tasks))
     = [bills].
Proof.
  destruct (commitEdit_blank_is_remove
              (editing (id milk) (js "  ") two_tasks) world_ticking (id milk))
    as [H _]; [reflexivity | discriminate | reflexivity |].
  split; [exact H | reflexivity].
Defined.

(** The empty id arises in the app itself: when [Math.random()] answers 0,
    the task that [addTask] creates has the empty string for its id. *)
Example addTask_can_draw_empty_id :
  ids (tasks (fst (addTask (js "Call mum") empty_state world_zero))) = [[]].
Proof. reflexivity. Qed.

(** C1.  The code misses what it sets out to do for a task whose id is
    the empty string: with that task under edit and the editor emptied,
    [commitEdit] returns at its first guard, written for [null], and the
    task stays, although the comment in [commitEdit] says that an empty
    title on edit deletes the task, and although [removeTask], which
    deletes it, and the row's own test [editingId === task.id] take the
    empty string for an id under edit. *)
Lemma commitEdit_blank_empty_id_keeps_task :
  In nameless (tasks editing_nameless)
  /\ editingId editing_nameless = Some (id nameless)
  /\ trim (editingTitle editing_nameless) = []
  /\ tasks (fst (commitEdit editing_nameless world_ticking))
     = [nameless; milk]
  /\ tasks (removeTask (id nameless) editing_nameless) = [milk]
  /\ tasks (fst (commitEdit editing_nameless world_ticking))
     <> tasks (removeTask (id nameless) editing_nameless).
Proof.
  repeat split; simpl; auto. discriminate.
Qed.

(* ================================================================= *)
(** ** Ids of added tasks *)

Lemma drawn_ids_S (w : World) (n : nat) :
  drawn_ids w (S n)
  = slice 2 10 (random36 w (random_calls w))
    :: drawn_ids (snd (Math_random_toString36 w)) n.
Proof. reflexivity. Qed.

Lemma drawn_ids_Date_now (w : World) (n : nat) :
  drawn_ids (snd (Date_now w)) n = drawn_ids w n.
Proof. reflexivity. Qed.

(** One [addTask] with a title that is not blank puts the next drawn id in
    front of the ids. *)
Lemma addTask_ids (t : jsstring) (s : State) (w : World) :
  nonblank t = true ->
  ids (tasks (fst (addTask t s w)))
  = slice 2 10 (random36 w (random_calls w)) :: ids (tasks s)
  /\ forall n, drawn_ids (snd (addTask t s w)) n
               = drawn_ids (snd (Math_random_toString36 w)) n.
Proof.
  unfold nonblank, addTask. intros H. rewrite H. simpl. split; reflexivity.
Qed.

Lemma addTask_blank (t : jsstring) (s : State) (w : World) :
  nonblank t = false -> addTask t s w = (s, w).
Proof.
  unfold nonblank, addTask. intros H. now rewrite H.
Qed.

(** After a run of [addTask] the ids are the drawn ids, the last drawn
    first, followed by the ids that were there. *)
Lemma addTasks_ids (titles : list jsstring) :
  forall (s : State) (w : World),
    ids (tasks (fst (addTasks titles s w)))
    = rev (drawn_ids w (List.length (List.filter nonblank titles)))
      ++ ids (tasks s).
Proof.
  induction titles as [|t titles IH]; intros s w; [reflexivity|].
  change (addTasks (t :: titles) s w)
    with (let (s', w') := addTask t s w in addTasks titles s' w').
  simpl List.filter. destruct (nonblank t) eqn:Ht.
  - destruct (addTask_ids t s w Ht) as [Hids Hdrawn].
    destruct (addTask t s w) as [s' w'] eqn:E. simpl in Hids, Hdrawn.
    rewrite IH, Hids, Hdrawn. simpl List.length. rewrite drawn_ids_S.
    simpl rev. rewrite <- app_assoc. reflexivity.
  - rewrite (addTask_blank t s w Ht). apply IH.
Qed.

(** C2, as the code has it.  [uid] draws an id at random and checks
    nothing.  If the ids drawn during a run of [addTask] differ from one
    another and from the ids in the collection, themselves distinct, then
    all ids of the resulting collection are distinct. *)
Theorem addTasks_ids_distinct (titles : list jsstring) (s : State) (w : World) :
  NoDup (drawn_ids w (List.length (List.filter nonblank titles))
         ++ ids (tasks s)) ->
  NoDup (ids (tasks (fst (addTasks titles s w)))).
Proof.
  intros H. rewrite addTasks_ids.
  eapply Permutation_NoDup; [|exact H].
  apply Permutation_app_tail, Permutation_rev.
Qed.

Lemma addTasks_ids_distinct_witness :
  NoDup (ids (tasks (fst (addTasks [js "A"; js "  "; js "B"]
                                   two_tasks world_ticking)))).
Proof.
  apply (addTasks_ids_distinct [js "A"; js "  "; js "B"] two_tasks world_ticking).
  repeat constructor; simpl; intuition discriminate.
Defined.

(** C2, as stated, fails: when [Math.random()] answers 0.5 twice, the two
    tasks added to the empty collection both get the id "i". *)
Lemma addTasks_same_draw_same_id :
  Forall (fun t => trim t <> []) [js "A"; js "B"]
  /\ ids (tasks (fst (addTasks [js "A"; js "B"] empty_state world_half)))
     = [js "i"; js "i"]
  /\ ~ NoDup (ids (tasks (fst (addTasks [js "A"; js "B"]
                                        empty_state world_half)))).
Proof.
  split; [|split].
  - repeat constructor; discriminate.
  - reflexivity.
  - intros H. inversion H as [|a l Hnot _]. apply Hnot. now left.
Qed.

(* ================================================================= *)
(** ** Toggling *)

Lemma clock_read_refl (w : World) : clock_read w w.
Proof. repeat split. apply Nat.le_refl. Qed.

Lemma clock_read_trans (w1 w2 w3 : World) :
  clock_read w1 w2 -> clock_read w2 w3 -> clock_read w1 w3.
Proof.
  unfold clock_read. intros [A [B [C D]]] [A' [B' [C' D']]].
  repeat split; try congruence. eapply Nat.le_trans; eauto.
Qed.

Lemma toggled_world (x : jsstring) (t : Task) (w : World) :
  clock_read w (snd (toggled x t w)).
Proof.
  unfold toggled. destruct (strict_eq (id t) x); simpl.
  - repeat split. apply Nat.le_succ_diag_r.
  - apply clock_read_refl.
Qed.

Lemma mapM_cons {A B : Type} (f : A -> Eff B) (a : A) (l : list A) (w : World) :
  mapM f (a :: l) w
  = (fst (f a w) :: fst (mapM f l (snd (f a w))),
     snd (mapM f l (snd (f a w)))).
Proof.
  simpl. unfold bind. destruct (f a w) as [b w1]. simpl.
  destruct (mapM f l w1) as [bs w2]. reflexivity.
Qed.

Lemma mapM_toggled_world (x : jsstring) (l : list Task) :
  forall w, clock_read w (snd (mapM (toggled x) l w)).
Proof.
  induction l as [|a l IH]; intros w.
  - apply clock_read_refl.
  - rewrite mapM_cons. simpl.
    eapply clock_read_trans; [apply toggled_world | apply IH].
Qed.

(** What [toggleTask]'s callback does to the task at position [k]: a task
    with another id is returned as it is; a task with id [x] gets its flag
    negated and the reading of one of the clock calls made by the run. *)
Lemma mapM_toggled_nth (x : jsstring) (l : list Task) :
  forall (w : World) (k : nat) (t0 : Task),
    nth_error l k = Some t0 ->
    exists t1,
      nth_error (fst (mapM (toggled x) l w)) k = Some t1
      /\ (strict_eq (id t0) x = false -> t1 = t0)
      /\ (strict_eq (id t0) x = true ->
          exists j,
            (now_calls w <= j < now_calls (snd (mapM (toggled x) l w)))%nat
            /\ t1 = mkTask (id t0) (title t0) (negb (completed t0))
                           (createdAt t0) (clock w j)).
Proof.
  induction l as [|a l IH]; intros w k t0 Hk.
  - destruct k; discriminate.
  - rewrite mapM_cons. simpl fst. simpl snd.
    pose proof (toggled_world x a w) as [Hc [Hn _]].
    pose proof (mapM_toggled_world x l (snd (toggled x a w))) as [_ [Hn' _]].
    destruct k as [|k]; simpl in Hk.
    + injection Hk as ->. exists (fst (toggled x t0 w)). simpl.
      split; [reflexivity|]. unfold toggled in *.
      destruct (strict_eq (id t0) x); simpl in *.
      * split; [discriminate|]. intros _. exists (now_calls w).
        split; [lia | reflexivity].
      * split; [reflexivity | discriminate].
    + destruct (IH (snd (toggled x a w)) k t0 Hk) as [t1 [H1 [H2 H3]]].
      exists t1. simpl. split; [exact H1|]. split; [exact H2|].
      intros E. destruct (H3 E) as [j [Hj ->]].
      exists j. split; [lia | now rewrite Hc].
Qed.

(** C6, as the code has it.  [toggleTask] stamps [updatedAt] with
    [Date.now()] and compares it with nothing.  Toggling an id twice gives
    every task with that id its original [completed] flag back and keeps
    its id, title and [createdAt], whatever the clock does.  And when no
    reading of the clock taken by the second toggle is below a reading
    taken by the first, the [updatedAt] after the second toggle is at least
    the one after the first. *)
Theorem toggle_twice_restores_flag
  (s : State) (w : World) (x : jsstring) (k : nat) (t0 : Task) :
  nth_error (tasks s) k = Some t0 ->
  id t0 = x ->
  exists t1 t2,
    nth_error (tasks (fst (toggleTask x s w))) k = Some t1
    /\ nth_error (tasks (fst (toggleTwice x s w))) k = Some t2
    /\ completed t1 = negb (completed t0)
    /\ completed t2 = completed t0
    /\ id t2 = id t0 /\ title t2 = title t0 /\ createdAt t2 = createdAt t0
    /\ ((forall i j,
           (now_calls w <= i < now_calls (snd (toggleTask x s w)))%nat ->
           (now_calls (snd (toggleTask x s w)) <= j
            < now_calls (snd (toggleTwice x s w)))%nat ->
           (clock w i <= clock w j)%Z) ->
        (updatedAt t1 <= updatedAt t2)%Z).
Proof.
  intros Hk Hid.
  assert (Ex : strict_eq (id t0) x = true) by now apply strict_eq_true.
  unfold toggleTwice, toggleTask, bind, ret.
  destruct (mapM (toggled x) (tasks s) w) as [l1 w1] eqn:E1.
  destruct (mapM (toggled x) (tasks (setTasks l1 s)) w1) as [l2 w2] eqn:E2.
  simpl in *.
  destruct (mapM_toggled_nth x (tasks s) w k t0 Hk) as [t1 [H1 [_ H1']]].
  destruct (H1' Ex) as [j1 [Hj1 Et1]].
  rewrite E1 in H1, Hj1. simpl in H1, Hj1.
  pose proof (mapM_toggled_world x (tasks s) w) as [Hc _].
  rewrite E1 in Hc. simpl in Hc.
  destruct (mapM_toggled_nth x l1 w1 k t1 H1) as [t2 [H2 [_ H2']]].
  assert (Ex1 : strict_eq (id t1) x = true) by now rewrite Et1.
  destruct (H2' Ex1) as [j2 [Hj2 Et2]].
  rewrite E2 in H2, Hj2. simpl in H2, Hj2.
  exists t1, t2. split; [exact H1|]. split; [exact H2|].
  rewrite Et2, Et1. simpl. rewrite Hc, negb_involutive.
  split; [reflexivity|]. split; [reflexivity|]. split; [reflexivity|].
  split; [reflexivity|]. split; [reflexivity|].
  intros Hclock. now apply Hclock.
Qed.

(** With a clock that ticks forward the stamps are ordered; with the clock
    that is set back between the toggles the flag is restored all the
    same. *)
Lemma toggle_twice_restores_flag_witness :
  (exists t1 t2,
      nth_error (tasks (fst (toggleTask (id milk) two_tasks world_ticking))) 0
      = Some t1
      /\ nth_error (tasks (fst (toggleTwice (id milk) two_tasks world_ticking))) 0
         = Some t2
      /\ completed t2 = completed milk
      /\ (updatedAt t1 <= updatedAt t2)%Z)
  /\ (exists t2,
         nth_error
           (tasks (fst (toggleTwice (id milk) two_tasks world_set_back))) 0
         = Some t2
         /\ completed t2 = completed milk
         /\ id t2 = id milk /\ title t2 = title milk
         /\ createdAt t2 = createdAt milk).
Proof.
  split.
  - destruct (toggle_twice_restores_flag
                two_tasks world_ticking (id milk) 0 milk eq_refl eq_refl)
      as [t1 [t2 [H1 [H2 [_ [H4 [_ [_ [_ H8]]]]]]]]].
    exists t1, t2. split; [exact H1|]. split; [exact H2|].
    split; [exact H4|]. apply H8.
    intros i j Hi Hj. unfold world_ticking, clock. lia.
  - destruct (toggle_twice_restores_flag
                two_tasks world_set_back (id milk) 0 milk eq_refl eq_refl)
      as [t1 [t2 [_ [H2 [_ [H4 [H5 [H6 [H7 _]]]]]]]]].
    exists t2. auto.
Defined.

(** C6, as stated, fails when the system clock is set back between the two
    toggles: the second toggle stamps the earlier reading. *)
Lemma toggle_twice_clock_set_back :
  nth_error (tasks two_tasks) 0 = Some milk
  /\ option_map updatedAt
       (nth_error (tasks (fst (toggleTask (id milk) two_tasks world_set_back))) 0)
     = Some 1700000000000%Z
  /\ option_map updatedAt
       (nth_error (tasks (fst (toggleTwice (id milk) two_tasks world_set_back))) 0)
     = Some 1600000000000%Z
  /\ ~ (1700000000000 <= 1600000000000)%Z.
Proof.
  repeat split. lia.
Qed.

(* ================================================================= *)
(** ** Start-up *)

(** C3, as the code has it.  The initializer never throws.  It yields the
    empty collection when reading the key throws, when the key is absent or
    holds the empty string, and when [JSON.parse] rejects the stored text.
    Otherwise it yields the parsed value as it is, without any check of its
    shape: a well-formed collection if and only if the stored text encodes
    one. *)
Theorem initial_tasks_never_throws (getItem : completion (option jsstring)) :
  (exists v, initial_tasks getItem = Normal v)
  /\ (getItem = Throw \/ getItem = Normal None \/ getItem = Normal (Some [])
      \/ (exists text, getItem = Normal (Some text) /\ JSON_parse text = Throw)
      -> initial_tasks getItem = Normal (JArray []))
  /\ (forall text v,
        getItem = Normal (Some text) -> text <> [] ->
        JSON_parse text = Normal v ->
        initial_tasks getItem = Normal v).
Proof.
  split; [|split].
  - unfold initial_tasks, try_catch.
    destruct getItem as [[text|]|]; eauto.
    destruct (truthy text); eauto.
    destruct (JSON_parse text); eauto.
  - unfold initial_tasks, try_catch.
    intros [-> | [-> | [-> | [text [-> H]]]]]; try reflexivity.
    rewrite H. now destruct (truthy text).
  - intros text v -> Ht H. unfold initial_tasks, try_catch.
    apply truthy_true in Ht. now rewrite Ht, H.
Qed.

Lemma initial_tasks_never_throws_witness :
  initial_tasks (Normal (Some (js "{not json"))) = Normal (JArray [])
  /\ initial_tasks (Normal (Some (js "[]"))) = Normal (JArray []).
Proof.
  destruct (initial_tasks_never_throws (Normal (Some (js "{not json"))))
    as [_ [H _]].
  destruct (initial_tasks_never_throws (Normal (Some (js "[]"))))
    as [_ [_ H']].
  split.
  - apply H. right. right. right. exists (js "{not json").
    split; reflexivity.
  - apply (H' (js "[]") (JArray [])); [reflexivity | discriminate | reflexivity].
Defined.

(** C3, as stated, fails for stored text that is valid JSON of another
    shape: the text [null] loads as the value [null], which is no task
    collection; so do a number and an object. *)
Lemma initial_tasks_null_is_no_collection :
  initial_tasks (Normal (Some (js "null"))) = Normal JNull
  /\ is_task_collection JNull = false
  /\ initial_tasks (Normal (Some (js "42"))) = Normal (JNumber (js "42"))
  /\ is_task_collection (JNumber (js "42")) = false
  /\ initial_tasks (Normal (Some (js "{}"))) = Normal (JObject [])
  /\ is_task_collection (JObject []) = false.
Proof.
  repeat split.
Qed.

(** A collection as the app itself stores it loads as a well-formed one. *)
Example initial_tasks_stored_collection :
  exists v,
    initial_tasks
      (Normal (Some (json_text
         "[{'id':'4fzyo82m','title':'Buy milk','completed':false,'createdAt':1699999999000,'updatedAt':1699999999000}]")))
    = Normal v
    /\ is_task_collection v = true.
Proof.
  eexists. split; [vm_compute; reflexivity | reflexivity].
Qed.

(* ================================================================= *)
(** ** The filtered view *)

Section ViewProperties.

Variable toLowerCase : jsstring -> jsstring.

(** The lower case of the empty string is the empty string. *)
Hypothesis toLowerCase_empty : toLowerCase [] = [].

Lemma filter_filter {A : Type} (f g : A -> bool) (l : list A) :
  List.filter g (List.filter f l) = List.filter (fun a => f a && g a) l.
Proof.
  induction l as [|a l IH]; simpl; [reflexivity|].
  destruct (f a); simpl; [destruct (g a)|]; now rewrite IH.
Qed.

Lemma includes_empty (s : jsstring) : includes s [] = true.
Proof. apply includes_Substring. now exists [], s. Qed.

(** The view as one filter: narrowing by [filter], then by the query. *)
Lemma filtered_as_filter (s : State) :
  filtered toLowerCase s
  = List.filter
      (fun t => passes (filter s) t
                && includes (toLowerCase (title t))
                            (toLowerCase (trim (query s))))
      (tasks s).
Proof.
  unfold filtered. rewrite filter_filter. apply filter_ext. intros t.
  change (match filter s with
          | All => true
          | Active => negb (completed t)
          | Completed => completed t
          end) with (passes (filter s) t).
  f_equal.
  destruct (truthy (toLowerCase (trim (query s)))) eqn:E; [reflexivity|].
  apply truthy_false in E. rewrite E. symmetry. apply includes_empty.
Qed.

(** C5.  The view is computed from the collection, the filter and the
    query, and is a list of its own: the state is not touched.  A task is
    in the view if and only if it is in the collection, passes the filter
    (All: every task; Active: not completed; Completed: completed) and
    its title contains the trimmed query when case is ignored.  The view
    keeps the tasks in the order of the collection, each as often as it
    stands there.  A blank query keeps every task that passes the
    filter.  Two states with the same collection, filter and query have
    the same view. *)
Theorem filtered_keeps_matching (s : State) :
  (forall t,
      In t (filtered toLowerCase s)
      <-> In t (tasks s)
          /\ passes (filter s) t = true
          /\ ContainsIgnoringCase toLowerCase (trim (query s)) (title t))
  /\ Subsequence (filtered toLowerCase s) (tasks s)
  /\ (exists keep,
         filtered toLowerCase s = List.filter keep (tasks s)
         /\ forall t,
             keep t = true
             <-> passes (filter s) t = true
                 /\ ContainsIgnoringCase toLowerCase
                      (trim (query s)) (title t))
  /\ (trim (query s) = [] ->
      filtered toLowerCase s = List.filter (passes (filter s)) (tasks s))
  /\ (forall s',
         tasks s' = tasks s -> filter s' = filter s -> query s' = query s ->
         filtered toLowerCase s' = filtered toLowerCase s).
Proof.
  assert (K : forall t,
             passes (filter s) t
             && includes (toLowerCase (title t))
                         (toLowerCase (trim (query s))) = true
             <-> passes (filter s) t = true
                 /\ ContainsIgnoringCase toLowerCase
                      (trim (query s)) (title t)).
  { intros t. rewrite andb_true_iff, includes_Substring. reflexivity. }
  split; [|split; [|split; [|split]]]; try rewrite filtered_as_filter.
  - intros t. rewrite filter_In, K. reflexivity.
  - apply filter_Subsequence.
  - eexists. split; [reflexivity | exact K].
  - intros E. apply filter_ext. intros t.
    rewrite E, toLowerCase_empty, includes_empty. apply andb_true_r.
  - intros s' Ht Hf Hq. rewrite ?filtered_as_filter. now rewrite Ht, Hf, Hq.
Qed.

End ViewProperties.

Lemma filtered_keeps_matching_witness :
  filtered toLowerCase_ascii (setFilter Active two_tasks)
  = List.filter (passes Active) (tasks two_tasks).
Proof.
  destruct (filtered_keeps_matching toLowerCase_ascii eq_refl
              (setFilter Active two_tasks)) as [_ [_ [_ [H _]]]].
  apply H. reflexivity.
Defined.

(** The spec's example: of "Buy milk" (active) and "Pay bills" (completed),
    Active with query "milk" keeps "Buy milk" alone, and Completed with
    query "milk" keeps nothing. *)
Example filtered_milk :
  filtered toLowerCase_ascii
           (setQuery (js "milk") (setFilter Active two_tasks)) = [milk]
  /\ filtered toLowerCase_ascii
              (setQuery (js "milk") (setFilter Completed two_tasks)) = []
  /\ filtered toLowerCase_ascii
              (setQuery (js "  MILK ") (setFilter All two_tasks)) = [milk].
Proof. repeat split. Qed.

(* ================================================================= *)
(** ** [trim] *)

Lemma trimStart_head (s : jsstring) : head_not_white (trimStart s).
Proof.
  induction s as [|c s IH]; simpl; [exact I|].
  destruct (is_white c) eqn:E; [exact IH | exact E].
Qed.

Lemma trimStart_fixed (s : jsstring) : head_not_white s -> trimStart s = s.
Proof.
  destruct s as [|c s]; simpl; [reflexivity|]. now intros ->.
Qed.

Lemma trimStart_split (s : jsstring) :
  exists ws, s = ws ++ trimStart s /\ forallb is_white ws = true.
Proof.
  induction s as [|c s [ws [E W]]]; simpl.
  - now exists [].
  - destruct (is_white c) eqn:C.
    + exists (c :: ws). simpl. rewrite C, W. split; [now f_equal | reflexivity].
    + now exists [].
Qed.

(** [trim] removes white space at both ends and nothing else: the string
    is white space, then its trim, then white space, and the trim neither
    begins nor ends with white space. *)
Lemma trim_split (s : jsstring) :
  exists pre post,
    s = pre ++ trim s ++ post
    /\ forallb is_white pre = true
    /\ forallb is_white post = true
    /\ head_not_white (trim s)
    /\ head_not_white (rev (trim s)).
Proof.
  unfold trim, trimEnd.
  destruct (trimStart_split s) as [pre [E1 W1]].
  destruct (trimStart_split (rev (trimStart s))) as [ws [E2 W2]].
  set (b := trimStart (rev (trimStart s))) in *.
  assert (Ea : trimStart s = rev b ++ rev ws).
  { rewrite <- (rev_involutive (trimStart s)), E2. apply rev_app_distr. }
  exists pre, (rev ws). repeat split.
  - rewrite <- Ea. exact E1.
  - exact W1.
  - rewrite forallb_forall in *. intros c Hc. apply W2. now apply in_rev.
  - pose proof (trimStart_head s) as H. rewrite Ea in H.
    destruct (rev b); [exact I | exact H].
  - rewrite rev_involutive. apply trimStart_head.
Qed.

(** Trimming twice is trimming once. *)
Lemma trim_idempotent (s : jsstring) : Trimmed (trim s).
Proof.
  destruct (trim_split s) as [_ [_ [_ [_ [_ [H1 H2]]]]]].
  unfold Trimmed. unfold trim at 1. rewrite (trimStart_fixed _ H1).
  unfold trimEnd. rewrite (trimStart_fixed _ H2). apply rev_involutive.
Qed.

(* ================================================================= *)
(** ** Callbacks that stamp the matching tasks *)

Lemma toggled_stamp (x : jsstring) :
  toggled x
  = stamp_matching x
      (fun t now => mkTask (id t) (title t) (negb (completed t))
                           (createdAt t) now).
Proof. reflexivity. Qed.

Lemma retitled_stamp (x v : jsstring) :
  retitled x v
  = stamp_matching x
      (fun t now => mkTask (id t) v (completed t) (createdAt t) now).
Proof. reflexivity. Qed.

Lemma stamp_matching_other (x : jsstring) g (t : Task) (w : World) :
  strict_eq (id t) x = false -> stamp_matching x g t w = (t, w).
Proof. unfold stamp_matching. now intros ->. Qed.

Lemma stamp_matching_same (x : jsstring) g (t : Task) (w : World) :
  strict_eq (id t) x = true ->
  stamp_matching x g t w
  = (g t (clock w (now_calls w)), snd (Date_now w)).
Proof. unfold stamp_matching. now intros ->. Qed.

Lemma stamp_matching_clock (x : jsstring) g (t : Task) (w : World) :
  clock_advanced w (snd (stamp_matching x g t w)).
Proof.
  unfold stamp_matching, clock_advanced.
  destruct (strict_eq (id t) x); simpl; split; auto.
Qed.

Lemma clock_advanced_refl (w : World) : clock_advanced w w.
Proof. split; auto. Qed.

Lemma clock_advanced_trans (w1 w2 w3 : World) :
  clock_advanced w1 w2 -> clock_advanced w2 w3 -> clock_advanced w1 w3.
Proof.
  unfold clock_advanced. intros [A B] [A' B']. split; [congruence | lia].
Qed.

Lemma mapM_stamp_clock (x : jsstring) g (l : list Task) :
  forall w, clock_advanced w (snd (mapM (stamp_matching x g) l w)).
Proof.
  induction l as [|a l IH]; intros w.
  - apply clock_advanced_refl.
  - rewrite mapM_cons. simpl.
    eapply clock_advanced_trans; [apply stamp_matching_clock | apply IH].
Qed.

(** The clock is read once for each task with the id [x], and the random
    source is left alone. *)
Lemma mapM_stamp_calls (x : jsstring) g (l : list Task) :
  forall w,
    now_calls (snd (mapM (stamp_matching x g) l w))
    = (now_calls w + count_id x l)%nat
    /\ random_calls (snd (mapM (stamp_matching x g) l w)) = random_calls w
    /\ random36 (snd (mapM (stamp_matching x g) l w)) = random36 w.
Proof.
  unfold count_id.
  induction l as [|a l IH]; intros w.
  - simpl. repeat split. lia.
  - rewrite mapM_cons. simpl snd.
    destruct (IH (snd (stamp_matching x g a w))) as [H1 [H2 H3]].
    rewrite H1, H2, H3. simpl List.filter. unfold stamp_matching.
    destruct (strict_eq (id a) x); simpl; repeat split; lia.
Qed.

(** A field that [g] sets from the task alone. *)
Lemma mapM_stamp_field {A : Type} (x : jsstring) g (p h : Task -> A)
      (l : list Task) :
  (forall t now, p (g t now) = h t) ->
  forall w,
    List.map p (fst (mapM (stamp_matching x g) l w))
    = List.map (fun t => if strict_eq (id t) x then h t else p t) l.
Proof.
  intros Hg. induction l as [|a l IH]; intros w; [reflexivity|].
  rewrite mapM_cons. simpl. rewrite IH. f_equal.
  unfold stamp_matching. destruct (strict_eq (id a) x); simpl; auto.
Qed.

Lemma map_if_same {A B : Type} (c : A -> bool) (p : A -> B) (l : list A) :
  List.map (fun t => if c t then p t else p t) l = List.map p l.
Proof. apply map_ext. intros t. now destruct (c t). Qed.

(** A task with another id stays in its place, as it is. *)
Lemma mapM_stamp_other (x : jsstring) g (l : list Task) :
  forall w k t,
    nth_error l k = Some t ->
    strict_eq (id t) x = false ->
    nth_error (fst (mapM (stamp_matching x g) l w)) k = Some t.
Proof.
  induction l as [|a l IH]; intros w k t Hk Ht.
  - destruct k; discriminate.
  - rewrite mapM_cons. destruct k as [|k]; simpl in *.
    + injection Hk as ->. now rewrite stamp_matching_other.
    + now apply IH.
Qed.

Lemma mapM_length {A B : Type} (f : A -> Eff B) (l : list A) :
  forall w, List.length (fst (mapM f l w)) = List.length l.
Proof.
  induction l as [|a l IH]; intros w; [reflexivity|].
  rewrite mapM_cons. simpl. now rewrite IH.
Qed.

(** A property of tasks that is kept when the clock advances and that the
    callback establishes for its result holds for the whole result. *)
Lemma mapM_stamp_Forall (P : World -> Task -> Prop) (x : jsstring) g
      (l : list Task) :
  (forall w w' t, clock_advanced w w' -> P w t -> P w' t) ->
  (forall w t, P w t ->
               P (snd (stamp_matching x g t w)) (fst (stamp_matching x g t w))) ->
  forall w,
    Forall (P w) l ->
    Forall (P (snd (mapM (stamp_matching x g) l w)))
           (fst (mapM (stamp_matching x g) l w)).
Proof.
  intros Hmono Hstep. induction l as [|a l IH]; intros w Hl.
  - constructor.
  - rewrite mapM_cons. simpl. inversion Hl as [|a' l' Ha Hl']; subst.
    constructor.
    + eapply Hmono; [apply mapM_stamp_clock | apply Hstep, Ha].
    + apply IH. eapply Forall_impl; [|exact Hl'].
      intros t. apply Hmono, stamp_matching_clock.
Qed.
(* ================================================================= *)
(** ** What [toggleTask] and [commitEdit] change *)

(** [toggleTask] and the saving branch of [commitEdit] as a pass of the
    stamping callback over the collection. *)
Lemma toggleTask_unfold (x : jsstring) (s : State) (w : World) :
  toggleTask x s w
  = (setTasks (fst (mapM (stamp_matching x
                 (fun t now => mkTask (id t) (title t) (negb (completed t))
                                      (createdAt t) now)) (tasks s) w)) s,
     snd (mapM (stamp_matching x
                 (fun t now => mkTask (id t) (title t) (negb (completed t))
                                      (createdAt t) now)) (tasks s) w)).
Proof.
  unfold toggleTask, bind, ret. rewrite toggled_stamp.
  now destruct (mapM _ (tasks s) w).
Qed.

Lemma commitEdit_unfold (s : State) (w : World) (x : jsstring) :
  editingId s = Some x ->
  x <> [] ->
  trim (editingTitle s) <> [] ->
  commitEdit s w
  = (cancelEdit
       (setTasks (fst (mapM (stamp_matching x
                    (fun t now => mkTask (id t) (trim (editingTitle s))
                                         (completed t) (createdAt t) now))
                    (tasks s) w)) s),
     snd (mapM (stamp_matching x
                  (fun t now => mkTask (id t) (trim (editingTitle s))
                                       (completed t) (createdAt t) now))
                  (tasks s) w)).
Proof.
  intros He Hx Hv. unfold commitEdit, falsy_id. rewrite He.
  apply truthy_true in Hx, Hv. rewrite Hx, Hv. cbn [negb].
  unfold bind, ret. rewrite retitled_stamp.
  now destruct (mapM _ (tasks s) w).
Qed.

Lemma toggleTask_ids (x : jsstring) (s : State) (w : World) :
  ids (tasks (fst (toggleTask x s w))) = ids (tasks s).
Proof.
  rewrite toggleTask_unfold. unfold ids. simpl.
  rewrite (mapM_stamp_field x _ id id) by reflexivity. apply map_if_same.
Qed.

Lemma toggleTask_flags (x : jsstring) (s : State) (w : World) :
  List.map completed (tasks (fst (toggleTask x s w)))
  = List.map (fun t => if strict_eq (id t) x
                       then negb (completed t) else completed t) (tasks s).
Proof.
  rewrite toggleTask_unfold. simpl.
  now rewrite (mapM_stamp_field x _ completed (fun t => negb (completed t))).
Qed.

(** X1.  [toggleTask x] keeps the number of tasks and, in order, their
    ids, titles and [createdAt]; it negates [completed] for the tasks with
    id [x] and for no other; a task with another id stays as it is, also
    in [updatedAt]; the rest of the state is kept; the clock is read once
    for each task with id [x]. *)
Theorem toggleTask_changes_matching_only (x : jsstring) (s : State) (w : World) :
  ids (tasks (fst (toggleTask x s w))) = ids (tasks s)
  /\ List.map title (tasks (fst (toggleTask x s w))) = List.map title (tasks s)
  /\ List.map createdAt (tasks (fst (toggleTask x s w)))
     = List.map createdAt (tasks s)
  /\ List.map completed (tasks (fst (toggleTask x s w)))
     = List.map (fun t => if strict_eq (id t) x
                          then negb (completed t) else completed t) (tasks s)
  /\ (forall k t, nth_error (tasks s) k = Some t -> id t <> x ->
                  nth_error (tasks (fst (toggleTask x s w))) k = Some t)
  /\ fst (toggleTask x s w) = setTasks (tasks (fst (toggleTask x s w))) s
  /\ now_calls (snd (toggleTask x s w))
     = (now_calls w + count_id x (tasks s))%nat.
Proof.
  split; [apply toggleTask_ids|].
  split; [|split; [|split; [apply toggleTask_flags|]]];
    rewrite ?toggleTask_unfold; cbn [fst snd tasks setTasks].
  - rewrite (mapM_stamp_field x _ title title) by reflexivity.
    apply map_if_same.
  - rewrite (mapM_stamp_field x _ createdAt createdAt) by reflexivity.
    apply map_if_same.
  - split; [|split].
    + intros k t Hk Ht. apply mapM_stamp_other; [exact Hk|].
      now apply strict_eq_false.
    + reflexivity.
    + apply mapM_stamp_calls.
Qed.

(** X2.  [commitEdit] of a non-empty id [x] with a title that is not blank:
    the tasks with id [x], and no other, get the trimmed title; number,
    ids, [completed] and [createdAt] of the tasks are kept; a task with
    another id stays as it is; the edit state is reset, theme, filter,
    query and draft are kept; the clock is read once per task with id
    [x]. *)
Theorem commitEdit_retitles_matching_only (s : State) (w : World) (x : jsstring) :
  editingId s = Some x ->
  x <> [] ->
  trim (editingTitle s) <> [] ->
  List.map title (tasks (fst (commitEdit s w)))
  = List.map (fun t => if strict_eq (id t) x
                       then trim (editingTitle s) else title t) (tasks s)
  /\ ids (tasks (fst (commitEdit s w))) = ids (tasks s)
  /\ List.map completed (tasks (fst (commitEdit s w)))
     = List.map completed (tasks s)
  /\ List.map createdAt (tasks (fst (commitEdit s w)))
     = List.map createdAt (tasks s)
  /\ (forall k t, nth_error (tasks s) k = Some t -> id t <> x ->
                  nth_error (tasks (fst (commitEdit s w))) k = Some t)
  /\ fst (commitEdit s w)
     = cancelEdit (setTasks (tasks (fst (commitEdit s w))) s)
  /\ now_calls (snd (commitEdit s w))
     = (now_calls w + count_id x (tasks s))%nat.
Proof.
  intros He Hx Hv. rewrite (commitEdit_unfold s w x He Hx Hv).
  cbn [fst snd]. unfold ids.
  change (tasks (cancelEdit (setTasks ?l s))) with l.
  split; [|split; [|split; [|split; [|split; [|split]]]]].
  - now rewrite (mapM_stamp_field x _ title
                   (fun _ => trim (editingTitle s))).
  - rewrite (mapM_stamp_field x _ id id) by reflexivity. apply map_if_same.
  - rewrite (mapM_stamp_field x _ completed completed) by reflexivity.
    apply map_if_same.
  - rewrite (mapM_stamp_field x _ createdAt createdAt) by reflexivity.
    apply map_if_same.
  - intros k t Hk Ht. apply mapM_stamp_other; [exact Hk|].
    now apply strict_eq_false.
  - reflexivity.
  - apply mapM_stamp_calls.
Qed.

Lemma commitEdit_retitles_matching_only_witness :
  List.map title
    (tasks (fst (commitEdit (editing (id milk) (js " Buy oat milk ") two_tasks)
                            world_ticking)))
  = [js "Buy oat milk"; js "Pay bills"].
Proof.
  destruct (commitEdit_retitles_matching_only
              (editing (id milk) (js " Buy oat milk ") two_tasks)
              world_ticking (id milk)) as [H _];
    [reflexivity | discriminate | discriminate |].
  rewrite H. reflexivity.
Defined.
(* ================================================================= *)
(** ** Invariants of a session *)

Lemma Forall_filter {A : Type} (P : A -> Prop) (f : A -> bool) (l : list A) :
  Forall P l -> Forall P (List.filter f l).
Proof.
  rewrite !Forall_forall. intros H a Ha. apply filter_In in Ha. now apply H.
Qed.

Lemma removeTask_tasks (x : jsstring) (s : State) :
  tasks (removeTask x s)
  = List.filter (fun t => negb (strict_eq (id t) x)) (tasks s).
Proof. unfold removeTask. now destruct (id_is (editingId s) x). Qed.

Lemma titles_ok_stamp (x : jsstring) g (l : list Task) (w : World) :
  (forall t now, title t <> [] /\ Trimmed (title t) ->
                 title (g t now) <> [] /\ Trimmed (title (g t now))) ->
  titles_ok l -> titles_ok (fst (mapM (stamp_matching x g) l w)).
Proof.
  intros Hg H. unfold titles_ok.
  apply (mapM_stamp_Forall
           (fun _ t => title t <> [] /\ Trimmed (title t)) x g l); auto.
  intros w0 t Ht. unfold stamp_matching.
  destruct (strict_eq (id t) x); simpl; auto.
Qed.

Lemma addTask_titles_ok (v : jsstring) (s : State) (w : World) :
  titles_ok (tasks s) -> titles_ok (tasks (fst (addTask v s w))).
Proof.
  intros H. unfold addTask. destruct (truthy (trim v)) eqn:E; simpl; auto.
  constructor; [|exact H]. simpl. split.
  - now apply truthy_true.
  - apply trim_idempotent.
Qed.

Lemma toggleTask_titles_ok (x : jsstring) (s : State) (w : World) :
  titles_ok (tasks s) -> titles_ok (tasks (fst (toggleTask x s w))).
Proof.
  intros H. unfold toggleTask, bind, ret. rewrite toggled_stamp.
  pose proof (titles_ok_stamp x
                (fun t now => mkTask (id t) (title t) (negb (completed t))
                                     (createdAt t) now) (tasks s) w) as K.
  destruct (mapM _ (tasks s) w) as [ts w']. simpl in *. apply K; auto.
Qed.

Lemma commitEdit_titles_ok (s : State) (w : World) :
  titles_ok (tasks s) -> titles_ok (tasks (fst (commitEdit s w))).
Proof.
  intros H. unfold commitEdit.
  destruct (falsy_id (editingId s)); [exact H|].
  destruct (editingId s) as [e|]; [|exact H].
  destruct (truthy (trim (editingTitle s))) eqn:E; cbn [negb].
  - unfold bind, ret. rewrite retitled_stamp.
    pose proof (titles_ok_stamp e
                  (fun t now => mkTask (id t) (trim (editingTitle s))
                                       (completed t) (createdAt t) now)
                  (tasks s) w) as K.
    destruct (mapM _ (tasks s) w) as [ts w']. simpl in *. apply K; auto.
    intros t now _. simpl. split.
    + now apply truthy_true.
    + apply trim_idempotent.
  - simpl. rewrite removeTask_tasks. now apply Forall_filter.
Qed.

Lemma handle_titles_ok (e : Event) (s : State) (w : World) :
  titles_ok (tasks s) -> titles_ok (tasks (fst (handle e s w))).
Proof.
  intros H. destruct e; simpl; auto.
  - now apply addTask_titles_ok.
  - now apply Forall_filter.
  - now apply toggleTask_titles_ok.
  - now apply commitEdit_titles_ok.
  - unfold editButton. destruct (id_is (editingId s) (id task)); simpl; auto.
    now apply commitEdit_titles_ok.
  - rewrite removeTask_tasks. now apply Forall_filter.
Qed.

(** X3.  Whatever the user does, no task gets an empty title or a title
    with white space at either end: if the titles of the collection are
    non-empty and trimmed before a run of events, they are so after it. *)
Theorem run_keeps_titles_trimmed (events : list Event) :
  forall (s : State) (w : World),
    titles_ok (tasks s) -> titles_ok (tasks (fst (run events s w))).
Proof.
  induction events as [|e events IH]; intros s w H; [exact H|].
  change (run (e :: events) s w)
    with (let (s', w') := handle e s w in run events s' w').
  pose proof (handle_titles_ok e s w H) as H'.
  destruct (handle e s w) as [s' w']. now apply IH.
Qed.

Lemma run_keeps_titles_trimmed_witness :
  titles_ok
    (tasks (fst (run [ChangeDraft (js "  Walk dog "); Submit;
                      DoubleClickTitle milk; ChangeEditor (js " Buy tea  ");
                      CommitEditor]
                     two_tasks world_ticking))).
Proof.
  apply (run_keeps_titles_trimmed
           [ChangeDraft (js "  Walk dog "); Submit;
            DoubleClickTitle milk; ChangeEditor (js " Buy tea  ");
            CommitEditor] two_tasks world_ticking).
  repeat constructor; discriminate.
Defined.

(** *** Timestamps *)

Lemma stamped_later (w w' : World) (t : Task) :
  clock_advanced w w' ->
  (exists i j, (i <= j < now_calls w)%nat
               /\ createdAt t = clock w i /\ updatedAt t = clock w j) ->
  exists i j, (i <= j < now_calls w')%nat
              /\ createdAt t = clock w' i /\ updatedAt t = clock w' j.
Proof.
  intros [Hc Hn] [i [j [Hij [H1 H2]]]]. exists i, j. rewrite Hc.
  repeat split; auto; lia.
Qed.

Lemma stamped_stamp (x : jsstring) g (l : list Task) (w : World) :
  (forall t now, createdAt (g t now) = createdAt t /\ updatedAt (g t now) = now) ->
  stamped w l ->
  stamped (snd (mapM (stamp_matching x g) l w))
          (fst (mapM (stamp_matching x g) l w)).
Proof.
  intros Hg H. unfold stamped.
  apply (mapM_stamp_Forall
           (fun w t => exists i j, (i <= j < now_calls w)%nat
                                   /\ createdAt t = clock w i
                                   /\ updatedAt t = clock w j) x g l); auto.
  - intros w0 w1 t. apply stamped_later.
  - intros w0 t [i [j [Hij [H1 H2]]]]. unfold stamp_matching.
    destruct (strict_eq (id t) x); simpl.
    + destruct (Hg t (clock w0 (now_calls w0))) as [G1 G2].
      exists i, (now_calls w0). rewrite G1, G2. repeat split; auto; lia.
    + exists i, j. auto.
Qed.

Lemma handle_clock_advanced (e : Event) (s : State) (w : World) :
  clock_advanced w (snd (handle e s w)).
Proof.
  assert (Hc : clock_advanced w (snd (commitEdit s w))).
  { unfold commitEdit. destruct (falsy_id (editingId s));
      [apply clock_advanced_refl|].
    destruct (editingId s) as [x|]; [|apply clock_advanced_refl].
    destruct (negb (truthy (trim (editingTitle s))));
      [apply clock_advanced_refl|].
    unfold bind, ret. rewrite retitled_stamp.
    pose proof (mapM_stamp_clock x
                  (fun t now => mkTask (id t) (trim (editingTitle s))
                                       (completed t) (createdAt t) now)
                  (tasks s) w) as K.
    destruct (mapM _ (tasks s) w). exact K. }
  destruct e; simpl; try apply clock_advanced_refl; auto.
  - unfold addTask. destruct (negb (truthy (trim (draft s)))); simpl.
    + apply clock_advanced_refl.
    + split; simpl; auto.
  - unfold toggleTask, bind, ret. rewrite toggled_stamp.
    pose proof (mapM_stamp_clock (id task)
                  (fun t now => mkTask (id t) (title t) (negb (completed t))
                                       (createdAt t) now) (tasks s) w) as K.
    destruct (mapM _ (tasks s) w). exact K.
  - unfold editButton. destruct (id_is (editingId s) (id task)); auto.
    apply clock_advanced_refl.
Qed.

Lemma commitEdit_stamped (s : State) (w : World) :
  stamped w (tasks s) ->
  stamped (snd (commitEdit s w)) (tasks (fst (commitEdit s w))).
Proof.
  intros H. unfold commitEdit.
  destruct (falsy_id (editingId s)); [exact H|].
  destruct (editingId s) as [x|]; [|exact H].
  destruct (negb (truthy (trim (editingTitle s)))).
  - simpl. rewrite removeTask_tasks. now apply Forall_filter.
  - unfold bind, ret. rewrite retitled_stamp.
    pose proof (stamped_stamp x
                  (fun t now => mkTask (id t) (trim (editingTitle s))
                                       (completed t) (createdAt t) now)
                  (tasks s) w) as K.
    destruct (mapM _ (tasks s) w). simpl in *. apply K; auto.
Qed.

Lemma handle_stamped (e : Event) (s : State) (w : World) :
  stamped w (tasks s) ->
  stamped (snd (handle e s w)) (tasks (fst (handle e s w))).
Proof.
  intros H. destruct e; simpl; auto.
  - unfold addTask. destruct (negb (truthy (trim (draft s)))); simpl; auto.
    constructor.
    + exists (now_calls w), (now_calls w). simpl. repeat split; lia.
    + eapply Forall_impl; [|exact H]. intros t.
      apply stamped_later. split; simpl; auto.
  - now apply Forall_filter.
  - unfold toggleTask, bind, ret. rewrite toggled_stamp.
    pose proof (stamped_stamp (id task)
                  (fun t now => mkTask (id t) (title t) (negb (completed t))
                                       (createdAt t) now) (tasks s) w) as K.
    destruct (mapM _ (tasks s) w). simpl in *. apply K; auto.
  - now apply commitEdit_stamped.
  - unfold editButton. destruct (id_is (editingId s) (id task)); simpl; auto.
    now apply commitEdit_stamped.
  - rewrite removeTask_tasks. now apply Forall_filter.
Qed.

Lemma run_stamped (events : list Event) :
  forall (s : State) (w : World),
    stamped w (tasks s) ->
    stamped (snd (run events s w)) (tasks (fst (run events s w)))
    /\ clock_advanced w (snd (run events s w)).
Proof.
  induction events as [|e events IH]; intros s w H.
  - split; [exact H | apply clock_advanced_refl].
  - change (run (e :: events) s w)
      with (let (s', w') := handle e s w in run events s' w').
    pose proof (handle_stamped e s w H) as H'.
    pose proof (handle_clock_advanced e s w) as C.
    destruct (handle e s w) as [s' w']. simpl in *.
    destruct (IH s' w' H') as [A B]. split; [exact A|].
    eapply clock_advanced_trans; eauto.
Qed.

(** X4.  If the clock never goes backwards, then in a session that starts
    with tasks stamped by that clock (with no task, for one) every task has
    [createdAt <= updatedAt], whatever the user does. *)
Theorem run_keeps_created_before_updated
        (events : list Event) (s : State) (w : World) :
  monotone_clock w ->
  stamped w (tasks s) ->
  forall t, In t (tasks (fst (run events s w))) ->
            (createdAt t <= updatedAt t)%Z.
Proof.
  intros Hm Hs t Ht. destruct (run_stamped events s w Hs) as [A [Hc _]].
  unfold stamped in A. rewrite Forall_forall in A.
  destruct (A t Ht) as [i [j [Hij [-> ->]]]]. rewrite Hc. apply Hm. lia.
Qed.

Lemma run_keeps_created_before_updated_witness :
  Forall (fun t => (createdAt t <= updatedAt t)%Z)
         (tasks (fst (run [ChangeDraft (js "Walk dog"); Submit;
                           ChangeDraft (js "Buy tea"); Submit;
                           ClickCheckbox (mkTask (js "a") [] false 0 0)]
                          empty_state world_ticking))).
Proof.
  apply Forall_forall.
  apply (run_keeps_created_before_updated
           [ChangeDraft (js "Walk dog"); Submit;
            ChangeDraft (js "Buy tea"); Submit;
            ClickCheckbox (mkTask (js "a") [] false 0 0)]
           empty_state world_ticking).
  - intros i j Hij. unfold world_ticking, clock. lia.
  - constructor.
Defined.
(* ================================================================= *)
(** ** Buttons, counter and views *)

Lemma filter_fixed_forallb {A : Type} (f : A -> bool) (l : list A) :
  List.filter f l = l <-> forallb f l = true.
Proof.
  split.
  - induction l as [|a l IH]; simpl; [reflexivity|].
    destruct (f a) eqn:E; intros H.
    + injection H as H. now rewrite IH.
    + pose proof (filter_length_le f l) as L. rewrite H in L. simpl in L. lia.
  - intros H. apply filter_all. now apply forallb_forall.
Qed.

Lemma setTasks_inj (a b : list Task) (s : State) :
  setTasks a s = setTasks b s -> a = b.
Proof. unfold setTasks. now intros [= H]. Qed.

(** X5.  The Clear Completed button is disabled exactly when clicking it
    would change nothing, and that is exactly when the counter of items
    left equals the number of tasks. *)
Theorem clear_disabled_iff_noop (s : State) :
  (clear_disabled s = true <-> clearCompleted s = s)
  /\ (clear_disabled s = true <-> remaining s = List.length (tasks s)).
Proof.
  unfold clear_disabled, clearCompleted, remaining. split.
  - rewrite <- filter_fixed_forallb. split.
    + intros ->. apply setTasks_same.
    + intros H. rewrite <- (setTasks_same s) in H at 3.
      now apply setTasks_inj in H.
  - rewrite <- filter_fixed_forallb. split; [now intros ->|].
    induction (tasks s) as [|a l IH]; simpl; [reflexivity|].
    destruct (negb (completed a)); simpl; intros H.
    + f_equal. apply IH. lia.
    + pose proof (filter_length_le (fun t => negb (completed t)) l). lia.
Qed.

(** X6.  The counter of items left survives [clearCompleted], and after it
    every task counts: the number of tasks then is the old counter. *)
Theorem clearCompleted_keeps_remaining (s : State) :
  remaining (clearCompleted s) = remaining s
  /\ List.length (tasks (clearCompleted s)) = remaining s
  /\ clear_disabled (clearCompleted s) = true.
Proof.
  unfold remaining, clear_disabled, clearCompleted. simpl.
  assert (E : List.filter (fun t => negb (completed t))
                (List.filter (fun t => negb (completed t)) (tasks s))
              = List.filter (fun t => negb (completed t)) (tasks s)).
  { apply filter_all. intros t Ht. now apply filter_In in Ht. }
  rewrite E. repeat split. now apply filter_fixed_forallb.
Qed.

Section ViewAlgebra.

Variable toLowerCase : jsstring -> jsstring.

Lemma filter_partition {A : Type} (p c : A -> bool) (l : list A) :
  Permutation (List.filter p l)
              (List.filter (fun a => negb (c a) && p a) l
               ++ List.filter (fun a => c a && p a) l).
Proof.
  induction l as [|a l IH]; simpl; [constructor|].
  destruct (p a), (c a); simpl; auto.
  now apply Permutation_cons_app.
Qed.

Lemma filtered_setFilter (f : Filter) (s : State) :
  filtered toLowerCase (setFilter f s)
  = List.filter
      (fun t => passes f t
                && (if truthy (toLowerCase (trim (query s)))
                    then includes (toLowerCase (title t))
                                  (toLowerCase (trim (query s)))
                    else true))
      (tasks s).
Proof.
  unfold filtered. simpl. rewrite filter_filter. apply filter_ext.
  intros t. now destruct f.
Qed.

(** X7.  For a given collection and query, the Active view and the
    Completed view share no task and together hold the tasks of the All
    view, each as often as it stands there; so their lengths add up to the
    length of the All view. *)
Theorem views_partition (s : State) :
  Permutation (filtered toLowerCase (setFilter All s))
              (filtered toLowerCase (setFilter Active s)
               ++ filtered toLowerCase (setFilter Completed s))
  /\ (forall t, In t (filtered toLowerCase (setFilter Active s)) ->
                In t (filtered toLowerCase (setFilter Completed s)) -> False)
  /\ List.length (filtered toLowerCase (setFilter All s))
     = (List.length (filtered toLowerCase (setFilter Active s))
        + List.length (filtered toLowerCase (setFilter Completed s)))%nat.
Proof.
  rewrite !filtered_setFilter.
  assert (P : Permutation
                (List.filter
                   (fun t => passes All t
                      && (if truthy (toLowerCase (trim (query s)))
                          then includes (toLowerCase (title t))
                                 (toLowerCase (trim (query s)))
                          else true)) (tasks s))
                (List.filter
                   (fun t => passes Active t
                      && (if truthy (toLowerCase (trim (query s)))
                          then includes (toLowerCase (title t))
                                 (toLowerCase (trim (query s)))
                          else true)) (tasks s)
                 ++ List.filter
                   (fun t => passes Completed t
                      && (if truthy (toLowerCase (trim (query s)))
                          then includes (toLowerCase (title t))
                                 (toLowerCase (trim (query s)))
                          else true)) (tasks s))).
  { apply (filter_partition _ completed). }
  split; [exact P|split].
  - intros t H1 H2. apply filter_In in H1 as [_ H1], H2 as [_ H2].
    simpl in H1, H2. destruct (completed t); discriminate.
  - rewrite <- length_app. now apply Permutation_length.
Qed.

(** X8.  After [clearCompleted] the Completed view is empty, and the
    Active view and the All view are both the Active view of before. *)
Theorem views_after_clearCompleted (s : State) :
  filtered toLowerCase (setFilter Completed (clearCompleted s)) = []
  /\ filtered toLowerCase (setFilter Active (clearCompleted s))
     = filtered toLowerCase (setFilter Active s)
  /\ filtered toLowerCase (setFilter All (clearCompleted s))
     = filtered toLowerCase (setFilter Active s).
Proof.
  rewrite !filtered_setFilter. simpl tasks. simpl query.
  rewrite !filter_filter. split; [|split].
  - induction (tasks s) as [|a l IH]; simpl; [reflexivity|].
    destruct (completed a); simpl; auto.
  - apply filter_ext. intros t. simpl. now destruct (completed t).
  - apply filter_ext. intros t. simpl. now destruct (completed t).
Qed.

(** X9.  With a blank query the Active view has as many tasks as the
    counter of items left says, and the All view is the whole collection. *)
Theorem blank_query_views (s : State) :
  toLowerCase [] = [] ->
  trim (query s) = [] ->
  List.length (filtered toLowerCase (setFilter Active s)) = remaining s
  /\ filtered toLowerCase (setFilter All s) = tasks s.
Proof.
  intros H0 Hq. rewrite !filtered_setFilter, Hq, H0. simpl truthy.
  unfold remaining. split.
  - f_equal. apply filter_ext. intros t. simpl. apply andb_true_r.
  - now apply filter_all.
Qed.

End ViewAlgebra.

Lemma blank_query_views_witness :
  List.length (filtered toLowerCase_ascii
                        (setFilter Active (setQuery (js "  ") two_tasks)))
  = remaining (setQuery (js "  ") two_tasks)
  /\ filtered toLowerCase_ascii
              (setFilter All (setQuery (js "  ") two_tasks))
     = tasks (setQuery (js "  ") two_tasks).
Proof.
  apply (blank_query_views toLowerCase_ascii (setQuery (js "  ") two_tasks));
    reflexivity.
Defined.
(* ================================================================= *)
(** ** How the handlers compose *)

Lemma filter_comm {A : Type} (f g : A -> bool) (l : list A) :
  List.filter f (List.filter g l) = List.filter g (List.filter f l).
Proof.
  rewrite !filter_filter. apply filter_ext. intros a. apply andb_comm.
Qed.

Lemma filter_twice {A : Type} (f : A -> bool) (l : list A) :
  List.filter f (List.filter f l) = List.filter f l.
Proof.
  apply filter_all. intros a Ha. now apply filter_In in Ha.
Qed.

(** X10.  Deleting is idempotent and the order of deletions does not
    matter, on the whole state: [removeTask x] twice is [removeTask x]
    once, [removeTask x] and [removeTask y] commute, [clearCompleted] twice
    is [clearCompleted] once, and [clearCompleted] commutes with
    [removeTask x]. *)
Theorem deletions_commute (x y : jsstring) (s : State) :
  removeTask x (removeTask x s) = removeTask x s
  /\ removeTask x (removeTask y s) = removeTask y (removeTask x s)
  /\ clearCompleted (clearCompleted s) = clearCompleted s
  /\ clearCompleted (removeTask x s) = removeTask x (clearCompleted s).
Proof.
  destruct s as [th ts f q d e et].
  unfold removeTask, clearCompleted, setTasks, setEditingId, setEditingTitle,
    id_is.
  cbn [theme tasks filter query draft editingId editingTitle].
  split; [|split; [|split]].
  - destruct e as [e|]; cbn [editingId tasks];
      [destruct (strict_eq e x) eqn:E|];
      cbn [theme tasks filter query draft editingId editingTitle];
      rewrite ?E, filter_twice; reflexivity.
  - destruct e as [e|];
      [destruct (strict_eq e x) eqn:Ex; destruct (strict_eq e y) eqn:Ey|];
      cbn [theme tasks filter query draft editingId editingTitle];
      rewrite ?Ex, ?Ey;
      cbn [theme tasks filter query draft editingId editingTitle];
      rewrite (filter_comm _ _ ts); reflexivity.
  - now rewrite filter_twice.
  - destruct e as [e|]; [destruct (strict_eq e x)|];
      cbn [theme tasks filter query draft editingId editingTitle];
      rewrite (filter_comm _ _ ts); reflexivity.
Qed.

(** X11.  Submitting the form while the Add Task button is disabled (the
    draft is blank) changes nothing, and the blank draft stays in the box.
    Submitting while it is enabled adds one task, empties the draft and so
    disables the button, and keeps theme, filter, query and edit state;
    hence submitting twice in a row adds one task, not two. *)
Theorem submit_adds_once (s : State) (w : World) :
  (add_disabled s = true -> handle Submit s w = (s, w))
  /\ (add_disabled s = false ->
      List.length (tasks (fst (handle Submit s w)))
      = S (List.length (tasks s))
      /\ draft (fst (handle Submit s w)) = []
      /\ add_disabled (fst (handle Submit s w)) = true
      /\ theme (fst (handle Submit s w)) = theme s
      /\ filter (fst (handle Submit s w)) = filter s
      /\ query (fst (handle Submit s w)) = query s
      /\ editingId (fst (handle Submit s w)) = editingId s
      /\ editingTitle (fst (handle Submit s w)) = editingTitle s
      /\ tasks (fst (run [Submit; Submit] s w))
         = tasks (fst (handle Submit s w))).
Proof.
  unfold add_disabled. simpl handle. unfold addTask. split; intros H.
  - now rewrite H.
  - change (run [Submit; Submit] s w)
      with (let (s', w') := addTask (draft s) s w in
            let (s'', w'') := addTask (draft s') s' w' in (s'', w'')).
    unfold addTask. rewrite H. simpl. repeat split.
Qed.

Lemma submit_adds_once_witness :
  handle Submit (setDraft (js "   ") two_tasks) world_ticking
  = (setDraft (js "   ") two_tasks, world_ticking)
  /\ List.length
       (tasks (fst (run [Submit; Submit] (setDraft (js "Walk dog") two_tasks)
                        world_ticking))) = 3%nat.
Proof.
  destruct (submit_adds_once (setDraft (js "   ") two_tasks) world_ticking)
    as [H1 _].
  destruct (submit_adds_once (setDraft (js "Walk dog") two_tasks) world_ticking)
    as [_ H2].
  split; [apply H1; reflexivity|].
  destruct H2 as [L [_ [_ [_ [_ [_ [_ [_ E]]]]]]]]; [reflexivity|].
  rewrite E. exact L.
Defined.

(* ================================================================= *)
(** ** The edit life cycle *)

Lemma NoDup_ids_same (l : list Task) (a b : Task) :
  NoDup (ids l) -> In a l -> In b l -> id a = id b -> a = b.
Proof.
  unfold ids. induction l as [|c l IH]; simpl; [contradiction|].
  intros Hn Ha Hb E. inversion Hn as [|c' l' Hc Hl]; subst.
  destruct Ha as [<- | Ha], Hb as [<- | Hb]; auto.
  - exfalso. apply Hc. rewrite E. now apply in_map.
  - exfalso. apply Hc. rewrite <- E. now apply in_map.
Qed.

(** X12.  Escape gives up the edit: after starting an edit, typing
    anything and pressing Escape, the collection and the world are as
    before and no edit is in progress, and a commit that follows (the
    editor losing focus) changes nothing more; from a state with no edit
    in progress and an empty buffer the result is the very state one
    started from. *)
Theorem escape_discards_edit (task : Task) (v : jsstring) (s : State) (w : World) :
  run [DoubleClickTitle task; ChangeEditor v; EscapeEditor] s w
  = (cancelEdit s, w)
  /\ run [DoubleClickTitle task; ChangeEditor v; EscapeEditor; CommitEditor] s w
     = (cancelEdit s, w)
  /\ tasks (cancelEdit s) = tasks s
  /\ editingId (cancelEdit s) = None
  /\ (editingId s = None -> editingTitle s = [] -> cancelEdit s = s).
Proof.
  split; [now destruct s|]. split; [now destruct s|].
  split; [reflexivity|]. split; [reflexivity|].
  destruct s as [th ts f q d e et]. simpl. now intros -> ->.
Qed.

Lemma commitEdit_ends_edit (s : State) (w : World) :
  falsy_id (editingId (fst (commitEdit s w))) = true.
Proof.
  unfold commitEdit. destruct (falsy_id (editingId s)) eqn:E; [exact E|].
  destruct (editingId s) as [x|] eqn:Ex; [|discriminate].
  destruct (negb (truthy (trim (editingTitle s)))).
  - simpl. unfold removeTask. rewrite Ex. simpl. now rewrite strict_eq_refl.
  - unfold bind, ret. now destruct (mapM _ (tasks s) w).
Qed.

(** X20.  Committing twice is committing once: whatever the state, a
    second [commitEdit] right after the first (Enter, then the editor
    losing focus) changes neither the state nor the world, so no task is
    stamped or deleted a second time. *)
Theorem commit_twice_is_once (s : State) (w : World) :
  run [CommitEditor; CommitEditor] s w = run [CommitEditor] s w.
Proof.
  change (run [CommitEditor; CommitEditor] s w)
    with (let (s1, w1) := commitEdit s w in
          let (s2, w2) := commitEdit s1 w1 in (s2, w2)).
  change (run [CommitEditor] s w)
    with (let (s1, w1) := commitEdit s w in (s1, w1)).
  pose proof (commitEdit_ends_edit s w) as H.
  destruct (commitEdit s w) as [s1 w1]. simpl in H.
  unfold commitEdit. now rewrite H.
Qed.

(** X13.  Saving an edit without having changed the title: when ids are
    distinct and titles non-empty and trimmed, starting an edit of a task
    of the collection whose id is not empty and committing at once keeps
    every title, id, [completed] and [createdAt]; the edit is over
    afterwards.  (The task's [updatedAt] is stamped anew all the same: the
    clock is read once.) *)
Theorem commit_unchanged_keeps_titles (task : Task) (s : State) (w : World) :
  NoDup (ids (tasks s)) ->
  titles_ok (tasks s) ->
  In task (tasks s) ->
  id task <> [] ->
  List.map title (tasks (fst (run [DoubleClickTitle task; CommitEditor] s w)))
  = List.map title (tasks s)
  /\ ids (tasks (fst (run [DoubleClickTitle task; CommitEditor] s w)))
     = ids (tasks s)
  /\ List.map completed
       (tasks (fst (run [DoubleClickTitle task; CommitEditor] s w)))
     = List.map completed (tasks s)
  /\ List.map createdAt
       (tasks (fst (run [DoubleClickTitle task; CommitEditor] s w)))
     = List.map createdAt (tasks s)
  /\ editingId (fst (run [DoubleClickTitle task; CommitEditor] s w)) = None
  /\ now_calls (snd (run [DoubleClickTitle task; CommitEditor] s w))
     = S (now_calls w).
Proof.
  intros Hn Ht Hin Hid.
  change (run [DoubleClickTitle task; CommitEditor] s w)
    with (let (s', w') := commitEdit (beginEdit task s) w in (s', w')).
  assert (Hok : title task <> [] /\ Trimmed (title task)).
  { unfold titles_ok in Ht. rewrite Forall_forall in Ht. now apply Ht. }
  destruct Hok as [Hne Htr]. unfold Trimmed in Htr.
  assert (Hv : trim (editingTitle (beginEdit task s)) <> [])
    by (simpl; now rewrite Htr).
  rewrite (commitEdit_unfold (beginEdit task s) w (id task) eq_refl Hid Hv).
  cbn [fst snd]. unfold ids.
  change (tasks (cancelEdit (setTasks ?l (beginEdit task s)))) with l.
  change (tasks (beginEdit task s)) with (tasks s).
  change (editingTitle (beginEdit task s)) with (title task).
  rewrite (mapM_stamp_field (id task) _ id id) by reflexivity.
  rewrite (mapM_stamp_field (id task) _ completed completed) by reflexivity.
  rewrite (mapM_stamp_field (id task) _ createdAt createdAt) by reflexivity.
  rewrite (mapM_stamp_field (id task) _ title (fun _ => trim (title task)))
    by reflexivity.
  rewrite !map_if_same.
  destruct (mapM_stamp_calls (id task)
              (fun t now => mkTask (id t) (trim (title task)) (completed t)
                                   (createdAt t) now) (tasks s) w)
    as [G _].
  rewrite G. split; [|split; [|split; [|split; [|split]]]];
    try reflexivity.
  - rewrite Htr. apply map_ext_in. intros t Hin'.
    destruct (strict_eq (id t) (id task)) eqn:E; [|reflexivity].
    apply strict_eq_true in E.
    now rewrite (NoDup_ids_same (tasks s) t task Hn Hin' Hin E).
  - unfold count_id.
    assert (K : forall l, NoDup (ids l) -> In task l ->
                List.length
                  (List.filter (fun t => strict_eq (id t) (id task)) l) = 1%nat).
    { clear. induction l as [|c l IH]; simpl; [contradiction|].
      intros Hn Hin. inversion Hn as [|c' l' Hc Hl]; subst.
      destruct (strict_eq (id c) (id task)) eqn:E.
      - simpl. f_equal. apply length_zero_iff_nil.
        apply strict_eq_true in E.
        destruct (List.filter _ l) as [|u r] eqn:Ef; [reflexivity|].
        exfalso. assert (Hu : In u (List.filter
                   (fun t => strict_eq (id t) (id task)) l))
          by (rewrite Ef; now left).
        apply filter_In in Hu as [Hu Eu]. apply strict_eq_true in Eu.
        apply Hc. rewrite E, <- Eu. unfold ids. now apply in_map.
      - destruct Hin as [-> | Hin]; [now rewrite strict_eq_refl in E|].
        now apply IH. }
    rewrite (K (tasks s) Hn Hin). lia.
Qed.

Lemma commit_unchanged_keeps_titles_witness :
  List.map title
    (tasks (fst (run [DoubleClickTitle milk; CommitEditor]
                     two_tasks world_ticking)))
  = List.map title (tasks two_tasks).
Proof.
  destruct (commit_unchanged_keeps_titles milk two_tasks world_ticking)
    as [H _].
  - repeat constructor; simpl; intuition discriminate.
  - repeat constructor; discriminate.
  - now left.
  - discriminate.
  - exact H.
Defined.

(* ================================================================= *)
(** ** Ids *)

Lemma NoDup_ids_filter (f : Task -> bool) (l : list Task) :
  NoDup (ids l) -> NoDup (ids (List.filter f l)).
Proof.
  unfold ids. induction l as [|a l IH]; simpl; intros H; [constructor|].
  inversion H as [|a' l' Ha Hl]; subst.
  destruct (f a); simpl; auto. constructor; auto.
  intros Hin. apply Ha. apply in_map_iff in Hin as [t [E Ht]].
  apply filter_In in Ht as [Ht _]. rewrite <- E. now apply in_map.
Qed.

Lemma commitEdit_ids (s : State) (w : World) :
  NoDup (ids (tasks s)) -> NoDup (ids (tasks (fst (commitEdit s w)))).
Proof.
  intros H. unfold commitEdit.
  destruct (falsy_id (editingId s)); [exact H|].
  destruct (editingId s) as [x|]; [|exact H].
  destruct (negb (truthy (trim (editingTitle s)))).
  - simpl. rewrite removeTask_tasks. now apply NoDup_ids_filter.
  - unfold bind, ret, ids. rewrite retitled_stamp.
    pose proof (mapM_stamp_field x
                  (fun t now => mkTask (id t) (trim (editingTitle s))
                                       (completed t) (createdAt t) now)
                  id id (tasks s) (fun _ _ => eq_refl) w) as K.
    destruct (mapM _ (tasks s) w). simpl in *.
    rewrite K, map_if_same. exact H.
Qed.

(** X14.  Only adding a task can bring in a duplicate id: when the ids of
    the collection are distinct, they are distinct after any event, if in
    the case of a submit that adds a task the id drawn is not one of the
    collection's. *)
Theorem handle_keeps_ids_distinct (e : Event) (s : State) (w : World) :
  NoDup (ids (tasks s)) ->
  (e = Submit -> add_disabled s = false ->
   ~ In (slice 2 10 (random36 w (random_calls w))) (ids (tasks s))) ->
  NoDup (ids (tasks (fst (handle e s w)))).
Proof.
  intros H Hfresh. destruct e; simpl; auto.
  - unfold add_disabled in Hfresh. unfold addTask.
    destruct (negb (truthy (trim (draft s)))); simpl; auto.
    constructor; auto.
  - now apply NoDup_ids_filter.
  - now rewrite toggleTask_ids.
  - now apply commitEdit_ids.
  - unfold editButton. destruct (id_is (editingId s) (id task)); simpl; auto.
    now apply commitEdit_ids.
  - rewrite removeTask_tasks. now apply NoDup_ids_filter.
Qed.

Lemma handle_keeps_ids_distinct_witness :
  NoDup (ids (tasks (fst (handle Submit (setDraft (js "Walk dog") two_tasks)
                                 world_ticking)))).
Proof.
  apply (handle_keeps_ids_distinct Submit (setDraft (js "Walk dog") two_tasks)
                                   world_ticking).
  - repeat constructor; simpl; intuition discriminate.
  - intros _ _. simpl. intuition discriminate.
Defined.

(** X15.  An id drawn by [uid] has at most eight code units: those of the
    rendering of the random number from the third on; it is the empty
    string exactly when the rendering has at most two code units.  Each
    call draws one random number and reads no clock. *)
Theorem uid_at_most_eight (w : World) :
  (List.length (fst (uid w)) <= 8)%nat
  /\ fst (uid w) = firstn 8 (skipn 2 (random36 w (random_calls w)))
  /\ (fst (uid w) = []
      <-> (List.length (random36 w (random_calls w)) <= 2)%nat)
  /\ random_calls (snd (uid w)) = S (random_calls w)
  /\ now_calls (snd (uid w)) = now_calls w.
Proof.
  simpl. unfold slice. simpl Nat.sub. repeat split.
  - apply firstn_le_length.
  - intros H. apply (f_equal (@List.length _)) in H.
    rewrite length_firstn, length_skipn in H. change (List.length (@nil codeunit)) with 0%nat in H. lia.
  - intros H. apply length_zero_iff_nil.
    rewrite length_firstn, length_skipn. lia.
Qed.
(* ================================================================= *)
(** ** [JSON.parse] reads what [JSON.stringify] writes *)

Lemma hex_digit_to_hex_digit (d : N) :
  (d < 16)%N -> hex_digit (to_hex_digit d) = Some d.
Proof.
  intros H. unfold to_hex_digit, hex_digit, is_digit.
  destruct (d <? 10)%N eqn:E.
  - apply N.ltb_lt in E.
    replace ((48 <=? 48 + d) && (48 + d <=? 57))%N with true.
    + f_equal. lia.
    + symmetry. apply andb_true_iff. split; apply N.leb_le; lia.
  - apply N.ltb_ge in E.
    replace ((48 <=? 87 + d) && (87 + d <=? 57))%N with false.
    + replace ((97 <=? 87 + d) && (87 + d <=? 102))%N with true.
      * f_equal. lia.
      * symmetry. apply andb_true_iff. split; apply N.leb_le; lia.
    + symmetry. apply andb_false_iff. right. apply N.leb_gt. lia.
Qed.

Lemma hex4_unicode_escape (c : codeunit) :
  (c < 65536)%N ->
  hex4 (to_hex_digit (c / 4096)) (to_hex_digit ((c / 256) mod 16))
       (to_hex_digit ((c / 16) mod 16)) (to_hex_digit (c mod 16))
  = Some c.
Proof.
  intros H. unfold hex4.
  rewrite !hex_digit_to_hex_digit.
  - f_equal.
    pose proof (N.div_mod c 16 ltac:(discriminate)) as E0.
    assert (E1 : (c / 16 = 16 * (c / 256) + (c / 16) mod 16)%N).
    { replace (c / 256)%N with (c / 16 / 16)%N
        by (rewrite N.Div0.div_div; reflexivity).
      apply N.div_mod. discriminate. }
    assert (E2 : (c / 256 = 16 * (c / 4096) + (c / 256) mod 16)%N).
    { replace (c / 4096)%N with (c / 256 / 16)%N
        by (rewrite N.Div0.div_div; reflexivity).
      apply N.div_mod. discriminate. }
    lia.
  - apply N.mod_lt. discriminate.
  - apply N.mod_lt. discriminate.
  - apply N.mod_lt. discriminate.
  - apply N.Div0.div_lt_upper_bound. exact H.
Qed.

Lemma parse_chars_raw (c : codeunit) (x acc : jsstring) :
  (c =? quote)%N = false -> (c =? backslash)%N = false ->
  (c <? 32)%N = false ->
  parse_chars (c :: x) acc = parse_chars x (c :: acc).
Proof. intros H1 H2 H3. cbn [parse_chars]. now rewrite H1, H2, H3. Qed.

Lemma parse_chars_unicode_escape (c : codeunit) (x acc : jsstring) :
  (c < 65536)%N ->
  parse_chars (unicode_escape c ++ x) acc = parse_chars x (c :: acc).
Proof.
  intros H.
  change (parse_chars (unicode_escape c ++ x) acc)
    with (match hex4 (to_hex_digit (c / 4096)) (to_hex_digit ((c / 256) mod 16))
                     (to_hex_digit ((c / 16) mod 16)) (to_hex_digit (c mod 16))
          with
          | Some u => parse_chars x (u :: acc)
          | None => None
          end).
  now rewrite hex4_unicode_escape.
Qed.

Lemma surrogate_below (c : codeunit) :
  is_high_surrogate c || is_low_surrogate c = true ->
  (c < 65536)%N /\ (c =? quote)%N = false /\ (c =? backslash)%N = false
  /\ (c <? 32)%N = false.
Proof.
  unfold is_high_surrogate, is_low_surrogate, quote, backslash.
  rewrite orb_true_iff, !andb_true_iff, !N.leb_le.
  intros H. repeat split; try apply N.eqb_neq; try apply N.ltb_ge; lia.
Qed.

Lemma parse_chars_quote_unit (c : codeunit) (x acc : jsstring) :
  parse_chars (quote_unit c ++ x) acc = parse_chars x (c :: acc).
Proof.
  unfold quote_unit.
  repeat match goal with
  | |- context [if (c =? ?k)%N then _ else _] =>
      destruct (c =? k)%N eqn:?;
      [match goal with E : (c =? _)%N = true |- _ =>
         apply N.eqb_eq in E; subst c; reflexivity end|]
  end.
  destruct ((c <? 32)%N || is_high_surrogate c || is_low_surrogate c) eqn:E.
  - apply parse_chars_unicode_escape.
    rewrite <- orb_assoc in E. apply orb_true_iff in E as [E | E].
    + apply N.ltb_lt in E. lia.
    + now apply surrogate_below in E.
  - rewrite <- orb_assoc in E. apply orb_false_iff in E as [E _].
    now apply parse_chars_raw.
Qed.

(** The characters [quote_units] writes, followed by the closing quote,
    read back as the string. *)
Lemma parse_chars_quote_units (n : nat) :
  forall s acc rest,
    (List.length s <= n)%nat ->
    parse_chars (quote_units s ++ quote :: rest) acc
    = Some (rev acc ++ s, rest).
Proof.
  induction n as [n IH] using lt_wf_ind. intros s acc rest Hn.
  destruct s as [|c r].
  - simpl. now rewrite app_nil_r.
  - assert (Hone : parse_chars ((quote_unit c ++ quote_units r)
                                ++ quote :: rest) acc
                   = Some (rev acc ++ c :: r, rest)).
    { rewrite <- app_assoc, parse_chars_quote_unit.
      rewrite (IH (List.length r)); simpl in *; try lia.
      now rewrite <- app_assoc. }
    assert (Hesc : is_high_surrogate c = true ->
                   parse_chars ((unicode_escape c ++ quote_units r)
                                ++ quote :: rest) acc
                   = Some (rev acc ++ c :: r, rest)).
    { intros Hc. rewrite <- app_assoc, parse_chars_unicode_escape.
      - rewrite (IH (List.length r)); simpl in *; try lia.
        now rewrite <- app_assoc.
      - apply (surrogate_below c). now rewrite Hc. }
    cbn [quote_units]. destruct (is_high_surrogate c) eqn:Hc; [|exact Hone].
    destruct r as [|d r'].
    + specialize (Hesc eq_refl). simpl quote_units in Hesc.
      now rewrite app_nil_r in Hesc.
    + destruct (is_low_surrogate d) eqn:Hd; [|now apply Hesc].
      destruct (surrogate_below c) as [_ [C1 [C2 C3]]]; [now rewrite Hc|].
      destruct (surrogate_below d) as [_ [D1 [D2 D3]]];
        [rewrite Hd; apply orb_true_r|].
      cbn [app]. rewrite parse_chars_raw, parse_chars_raw by assumption.
      rewrite (IH (List.length r')); simpl in *; try lia.
      now rewrite <- !app_assoc.
Qed.

Lemma parse_chars_quote_string (s rest : jsstring) :
  parse_chars (quote_units s ++ quote :: rest) [] = Some (s, rest).
Proof. now rewrite (parse_chars_quote_units (List.length s)). Qed.

(** *** Numbers *)

Lemma is_digit_units_of_uint (d : Decimal.uint) :
  forallb is_digit (units_of_uint d) = true.
Proof. induction d; simpl; auto. Qed.

Lemma digits_all (ds rest : jsstring) :
  forallb is_digit ds = true -> number_end rest ->
  digits (ds ++ rest) = (ds, rest).
Proof.
  intros Hd Hr. induction ds as [|c ds IH]; simpl in *.
  - destruct rest as [|c r]; [reflexivity|].
    destruct Hr as [Hr _]. simpl. now rewrite Hr.
  - apply andb_true_iff in Hd as [Hc Hd]. now rewrite Hc, IH.
Qed.

Lemma parse_frac_end (rest : jsstring) :
  number_end rest -> parse_frac rest = Some ([], rest).
Proof.
  destruct rest as [|c r]; [reflexivity|]. intros [_ [H _]].
  cbn [parse_frac]. now rewrite H.
Qed.

Lemma parse_exp_end (rest : jsstring) :
  number_end rest -> parse_exp rest = Some ([], rest).
Proof.
  destruct rest as [|c r]; [reflexivity|]. intros [_ [_ H]].
  cbn [parse_exp]. now rewrite H.
Qed.

Lemma nzhead_no_D0 (d : Decimal.uint) :
  match Decimal.nzhead d with Decimal.D0 _ => False | _ => True end.
Proof. induction d; simpl; auto. Qed.

(** The decimal digits of a positive number: a digit other than 0, then
    digits. *)
Lemma units_of_to_uint (p : positive) :
  exists c ds,
    units_of_uint (Pos.to_uint p) = c :: ds
    /\ is_digit c = true /\ (c =? 48)%N = false /\ (c =? cu "-")%N = false
    /\ forallb is_digit ds = true.
Proof.
  assert (E : Decimal.unorm (Pos.to_uint p) = Pos.to_uint p).
  { rewrite <- (DecimalPos.Unsigned.to_of (Pos.to_uint p)).
    now rewrite DecimalPos.Unsigned.of_to. }
  pose proof (DecimalPos.Unsigned.to_uint_nonzero p) as Hz.
  pose proof (nzhead_no_D0 (Pos.to_uint p)) as Hh.
  unfold Decimal.unorm in E.
  assert (E' : Decimal.nzhead (Pos.to_uint p) = Pos.to_uint p).
  { destruct (Decimal.nzhead (Pos.to_uint p)); auto.
    exfalso. apply Hz. now rewrite <- E. }
  rewrite E' in Hh.
  destruct (Pos.to_uint p) as [|d|d|d|d|d|d|d|d|d|d] eqn:Ep;
    try contradiction;
    [exfalso; apply (DecimalPos.Unsigned.to_uint_nonnil p Ep)|..];
    eexists; eexists; (split; [reflexivity|]);
    repeat split; apply is_digit_units_of_uint.
Qed.

Lemma parse_number_Number_toString (z : Z) (rest : jsstring) :
  number_end rest ->
  parse_number (Number_toString z ++ rest) = Some (Number_toString z, rest).
Proof.
  intros Hr.
  assert (Hpos : forall p,
             parse_int (units_of_uint (Pos.to_uint p) ++ rest)
             = Some (units_of_uint (Pos.to_uint p), rest)).
  { intros p. destruct (units_of_to_uint p) as [c [ds [E [H1 [H2 [_ H3]]]]]].
    rewrite E. cbn [app parse_int]. rewrite H2, H1.
    now rewrite (digits_all ds rest H3 Hr). }
  unfold Number_toString, parse_number.
  destruct z as [|p|p]; cbn [Z.to_int].
  - cbn. now rewrite parse_frac_end, parse_exp_end.
  - destruct (units_of_to_uint p) as [c [ds [E [_ [_ [H4 _]]]]]].
    specialize (Hpos p). rewrite E in *. cbn [app]. rewrite H4.
    change (c :: ds ++ rest) with ((c :: ds) ++ rest). rewrite Hpos.
    rewrite parse_frac_end, parse_exp_end by assumption.
    now rewrite !app_nil_r.
  - cbn [app]. change (cu "-" =? cu "-")%N with true. cbv iota.
    rewrite Hpos, parse_frac_end, parse_exp_end by assumption.
    now rewrite !app_nil_r.
Qed.

(** The first code unit of a number: the minus sign or a digit. *)
Lemma Number_toString_head (z : Z) :
  exists c r, Number_toString z = c :: r
              /\ ((c =? cu "-")%N = true \/ is_digit c = true).
Proof.
  unfold Number_toString. destruct z as [|p|p]; cbn [Z.to_int].
  - exists 48%N, []. split; [reflexivity | now right].
  - destruct (units_of_to_uint p) as [c [ds [E [H1 _]]]].
    exists c, ds. split; [exact E | now right].
  - eexists; eexists. split; [reflexivity | now left].
Qed.

Lemma uint_of_units_of_uint (d : Decimal.uint) :
  uint_of_units (units_of_uint d) = Some d.
Proof. induction d; simpl; rewrite ?IHd; reflexivity. Qed.

(** The digits [Number_toString] writes spell the number. *)
Lemma Z_of_digits_Number_toString (z : Z) :
  Z_of_digits (Number_toString z) = Some z.
Proof.
  rewrite <- (DecimalZ.of_to z) at 2.
  unfold Number_toString, Z_of_digits.
  destruct z as [|p|p]; cbn [Z.to_int].
  - reflexivity.
  - destruct (units_of_to_uint p) as [c [ds [E [_ [_ [H _]]]]]].
    pose proof (uint_of_units_of_uint (Pos.to_uint p)) as U.
    rewrite E in *. now rewrite H, U.
  - change (cu "-" =? cu "-")%N with true. cbv iota.
    now rewrite uint_of_units_of_uint.
Qed.

(** The literal written for a safe integer is read as that integer. *)
Lemma Z_of_lexeme_Number_toString (z : Z) :
  safe_integer z = true -> Z_of_lexeme (Number_toString z) = Some z.
Proof.
  intros H. unfold Z_of_lexeme.
  now rewrite Z_of_digits_Number_toString, H, strict_eq_refl.
Qed.

(** What is read is a safe integer, and the literal is the one written for
    it. *)
Lemma Z_of_lexeme_safe (s : jsstring) (z : Z) :
  Z_of_lexeme s = Some z -> safe_integer z = true /\ Number_toString z = s.
Proof.
  unfold Z_of_lexeme. destruct (Z_of_digits s) as [z'|]; [|discriminate].
  destruct (safe_integer z') eqn:E; [|discriminate].
  destruct (strict_eq (Number_toString z') s) eqn:E'; [|discriminate].
  intros [= <-]. split; [exact E | now apply strict_eq_true].
Qed.
(** *** Values *)

(** A result found with some fuel is found with any fuel that is at least
    the number of code units read. *)
Lemma parse_value_any_fuel (n : nat) (text rest : jsstring) (v : json) :
  parse_value n (text ++ rest) = Some (v, rest) ->
  forall m, (List.length text <= m)%nat ->
            parse_value m (text ++ rest) = Some (v, rest).
Proof.
  intros H m Hm. apply (proj1 (parse_fuel_enough n)) in H as [_ H].
  apply H. rewrite length_app. lia.
Qed.

Lemma parse_value_string (n : nat) (s rest : jsstring) :
  parse_value (S n) (quote_string s ++ rest) = Some (JString s, rest).
Proof.
  unfold quote_string. cbn [app]. rewrite <- app_assoc. cbn [app].
  change (parse_value (S n) (quote :: quote_units s ++ quote :: rest))
    with (match parse_chars (quote_units s ++ quote :: rest) [] with
          | Some (str, r') => Some (JString str, r')
          | None => None
          end).
  now rewrite parse_chars_quote_string.
Qed.

Lemma parse_value_bool (n : nat) (b : bool) (rest : jsstring) :
  parse_value (S n) (js (if b then "true" else "false") ++ rest)
  = Some (JBool b, rest).
Proof.
  assert (W : forall w v, parse_word w v (js w ++ rest) = Some (v, rest)).
  { intros w v. unfold parse_word.
    replace (startsWith (js w ++ rest) (js w)) with true
      by (symmetry; apply startsWith_prefix; now exists rest).
    now rewrite skipn_app, Nat.sub_diag, skipn_all. }
  destruct b.
  - change (parse_value (S n) (js "true" ++ rest))
      with (parse_word "true" (JBool true) (js "true" ++ rest)). apply W.
  - change (parse_value (S n) (js "false" ++ rest))
      with (parse_word "false" (JBool false) (js "false" ++ rest)). apply W.
Qed.

Lemma parse_value_number (n : nat) (z : Z) (rest : jsstring) :
  number_end rest ->
  parse_value (S n) (Number_toString z ++ rest)
  = Some (JNumber (Number_toString z), rest).
Proof.
  intros Hr. pose proof (parse_number_Number_toString z rest Hr) as P.
  destruct (Number_toString_head z) as [c [r [E Hc]]].
  rewrite E in *. cbn [app] in *.
  assert (T : is_json_ws c = false /\ (c =? cu "[")%N = false
              /\ (c =? cu "{")%N = false /\ (c =? quote)%N = false
              /\ (c =? cu "t")%N = false /\ (c =? cu "f")%N = false
              /\ (c =? cu "n")%N = false).
  { unfold is_json_ws, is_digit, quote in *.
    destruct Hc as [Hc | Hc].
    - apply N.eqb_eq in Hc. subst c. repeat split.
    - apply andb_true_iff in Hc as [H1 H2]. apply N.leb_le in H1, H2.
      repeat split; rewrite ?orb_false_iff; repeat split;
        apply N.eqb_neq; cbn; lia. }
  destruct T as [T0 [T1 [T2 [T3 [T4 [T5 T6]]]]]].
  cbn [parse_value skip_ws]. rewrite T0, T1, T2, T3, T4, T5, T6.
  now rewrite P.
Qed.

(** One member of an object, followed by a comma or by the closing
    brace. *)
Lemma parse_members_next (n : nat) (key text more : jsstring) (v : json)
      (acc : list (jsstring * json)) :
  parse_value n (text ++ cu "," :: more) = Some (v, cu "," :: more) ->
  parse_members (S n) (quote_string key ++ cu ":" :: text ++ cu "," :: more) acc
  = parse_members n more ((key, v) :: acc).
Proof.
  intros H. unfold quote_string. cbn [app]. rewrite <- app_assoc. cbn [app].
  change (parse_members (S n)
            (quote :: quote_units key
                      ++ quote :: cu ":" :: text ++ cu "," :: more) acc)
    with (match parse_chars (quote_units key
                             ++ quote :: cu ":" :: text ++ cu "," :: more) []
          with
          | None => None
          | Some (k, r1) =>
              match skip_ws r1 with
              | [] => None
              | c :: r2 =>
                  if (c =? cu ":")%N then
                    match parse_value n r2 with
                    | None => None
                    | Some (v0, r3) =>
                        match skip_ws r3 with
                        | [] => None
                        | d :: r4 =>
                            if (d =? cu ",")%N then
                              parse_members n r4 ((k, v0) :: acc)
                            else if (d =? cu "}")%N then
                              Some (JObject (rev ((k, v0) :: acc)), r4)
                            else None
                        end
                    end
                  else None
              end
          end).
  rewrite parse_chars_quote_string.
  change (skip_ws (cu ":" :: text ++ cu "," :: more))
    with (cu ":" :: text ++ cu "," :: more).
  change (cu ":" =? cu ":")%N with true. cbv iota. now rewrite H.
Qed.

Lemma parse_members_last (n : nat) (key text rest : jsstring) (v : json)
      (acc : list (jsstring * json)) :
  parse_value n (text ++ cu "}" :: rest) = Some (v, cu "}" :: rest) ->
  parse_members (S n) (quote_string key ++ cu ":" :: text ++ cu "}" :: rest) acc
  = Some (JObject (rev ((key, v) :: acc)), rest).
Proof.
  intros H. unfold quote_string. cbn [app]. rewrite <- app_assoc. cbn [app].
  change (parse_members (S n)
            (quote :: quote_units key
                      ++ quote :: cu ":" :: text ++ cu "}" :: rest) acc)
    with (match parse_chars (quote_units key
                             ++ quote :: cu ":" :: text ++ cu "}" :: rest) []
          with
          | None => None
          | Some (k, r1) =>
              match skip_ws r1 with
              | [] => None
              | c :: r2 =>
                  if (c =? cu ":")%N then
                    match parse_value n r2 with
                    | None => None
                    | Some (v0, r3) =>
                        match skip_ws r3 with
                        | [] => None
                        | d :: r4 =>
                            if (d =? cu ",")%N then
                              parse_members n r4 ((k, v0) :: acc)
                            else if (d =? cu "}")%N then
                              Some (JObject (rev ((k, v0) :: acc)), r4)
                            else None
                        end
                    end
                  else None
              end
          end).
  rewrite parse_chars_quote_string.
  change (skip_ws (cu ":" :: text ++ cu "}" :: rest))
    with (cu ":" :: text ++ cu "}" :: rest).
  change (cu ":" =? cu ":")%N with true. cbv iota. now rewrite H.
Qed.

(** A task object reads back as its JSON value. *)
Lemma parse_value_task (t : Task) (rest : jsstring) :
  forall m, (List.length (stringify_task t) <= m)%nat ->
            parse_value m (stringify_task t ++ rest)
            = Some (json_of_task t, rest).
Proof.
  apply (parse_value_any_fuel 7).
  unfold stringify_task. cbn [app]. repeat (rewrite <- app_assoc; cbn [app]).
  change (parse_value 7 (cu "{" :: ?x)) with (parse_members 6 x []).
  rewrite (parse_members_next 5 (js "id") (quote_string (id t)) _
             (JString (id t))) by apply parse_value_string.
  rewrite (parse_members_next 4 (js "title") (quote_string (title t)) _
             (JString (title t))) by apply parse_value_string.
  rewrite (parse_members_next 3 (js "completed")
             (js (if completed t then "true" else "false")) _
             (JBool (completed t))) by apply parse_value_bool.
  rewrite (parse_members_next 2 (js "createdAt")
             (Number_toString (createdAt t)) _
             (JNumber (Number_toString (createdAt t))))
    by (apply parse_value_number; repeat split).
  rewrite (parse_members_last 1 (js "updatedAt")
             (Number_toString (updatedAt t)) rest
             (JNumber (Number_toString (updatedAt t))))
    by (apply parse_value_number; repeat split).
  reflexivity.
Qed.

Lemma stringify_task_length (t : Task) :
  (0 < List.length (stringify_task t))%nat.
Proof. unfold stringify_task. simpl. lia. Qed.

(** The elements of the array, up to and including the closing bracket. *)
Lemma parse_elements_tasks (ts : list Task) :
  forall (t : Task) (acc : list json) (rest : jsstring) (m : nat),
    (List.length (stringify_elements (t :: ts)) < m)%nat ->
    parse_elements m (stringify_elements (t :: ts) ++ cu "]" :: rest) acc
    = Some (JArray (rev acc ++ List.map json_of_task (t :: ts)), rest).
Proof.
  induction ts as [|t' ts IH]; intros t acc rest m Hm.
  - cbn [stringify_elements] in *. destruct m as [|m]; [lia|].
    cbn [parse_elements].
    rewrite (parse_value_task t (cu "]" :: rest) m) by lia.
    reflexivity.
  - change (stringify_elements (t :: t' :: ts))
      with (stringify_task t ++ cu "," :: stringify_elements (t' :: ts)) in *.
    rewrite length_app in Hm. cbn [List.length] in Hm.
    destruct m as [|m]; [lia|]. cbn [parse_elements].
    rewrite <- app_assoc. cbn [app].
    rewrite (parse_value_task t _ m) by lia.
    change (skip_ws (cu "," :: ?x)) with (cu "," :: x).
    change (cu "," =? cu ",")%N with true. cbv iota.
    rewrite IH by lia. cbn [rev List.map]. now rewrite <- app_assoc.
Qed.

(** What [JSON.stringify] writes for a collection, [JSON.parse] reads as
    the JSON value of that collection. *)
Lemma JSON_parse_stringify_tasks (ts : list Task) :
  JSON_parse (JSON_stringify_tasks ts) = Normal (json_of_tasks ts).
Proof.
  unfold JSON_parse, JSON_stringify_tasks, json_of_tasks.
  set (n := (2 * List.length (cu "[" :: stringify_elements ts ++ [cu "]"]) + 2)%nat).
  assert (Hn : (List.length (stringify_elements ts) + 2 < n)%nat).
  { subst n. cbn [List.length]. rewrite length_app. simpl. lia. }
  destruct n as [|n]; [lia|].
  destruct ts as [|t ts].
  - reflexivity.
  - change (parse_value (S n)
              (cu "[" :: stringify_elements (t :: ts) ++ [cu "]"]))
      with (match skip_ws (stringify_elements (t :: ts) ++ [cu "]"]) with
            | [] => None
            | c2 :: r2 =>
                if (c2 =? cu "]")%N then Some (JArray [], r2)
                else parse_elements n (c2 :: r2) []
            end).
    assert (Hhead : exists x, stringify_elements (t :: ts) = cu "{" :: x).
    { destruct ts; eexists; reflexivity. }
    destruct Hhead as [x Hx].
    pose proof (parse_elements_tasks ts t [] [] n) as P.
    rewrite Hx in *. cbn [app] in *.
    change (skip_ws (cu "{" :: ?y)) with (cu "{" :: y).
    change (cu "{" =? cu "]")%N with false. cbv iota.
    rewrite P by lia. reflexivity.
Qed.

(** *** Reading the value as a collection *)

Lemma task_of_json_of_task (t : Task) :
  safe_timestamps t -> task_of_json (json_of_task t) = Some t.
Proof.
  destruct t as [i ti c a b]. intros [Ha Hb]. simpl in Ha, Hb.
  unfold json_of_task, task_of_json.
  cbn [id title completed createdAt updatedAt].
  rewrite !strict_eq_refl. cbn [andb].
  now rewrite !Z_of_lexeme_Number_toString.
Qed.

Lemma tasks_of_json_of_tasks (ts : list Task) :
  Forall safe_timestamps ts -> tasks_of_json (json_of_tasks ts) = Some ts.
Proof.
  unfold json_of_tasks, tasks_of_json.
  induction 1 as [|t ts Ht Hts IH]; [reflexivity|].
  cbn [List.map tasks_of_list]. now rewrite task_of_json_of_task, IH.
Qed.

(** The reading accepts nothing but what the app writes: a value read as
    a collection is the JSON value of that collection, and its timestamps
    are safe integers. *)
Lemma task_of_json_inv (v : json) (t : Task) :
  task_of_json v = Some t -> v = json_of_task t /\ safe_timestamps t.
Proof.
  unfold task_of_json.
  destruct v as [| | | |l|ms]; try discriminate.
  destruct ms as [|[k1 [| | |i| |]] ms]; try discriminate.
  destruct ms as [|[k2 [| | |ti| |]] ms]; try discriminate.
  destruct ms as [|[k3 [|c| | | |]] ms]; try discriminate.
  destruct ms as [|[k4 [| |a| | |]] ms]; try discriminate.
  destruct ms as [|[k5 [| |b| | |]] ms]; try discriminate.
  destruct ms as [|m ms]; [|discriminate].
  destruct (strict_eq k1 (js "id")) eqn:E1; [|discriminate].
  destruct (strict_eq k2 (js "title")) eqn:E2; [|discriminate].
  destruct (strict_eq k3 (js "completed")) eqn:E3; [|discriminate].
  destruct (strict_eq k4 (js "createdAt")) eqn:E4; [|discriminate].
  destruct (strict_eq k5 (js "updatedAt")) eqn:E5; [|discriminate].
  cbn [andb].
  destruct (Z_of_lexeme a) as [x|] eqn:Ea; [|discriminate].
  destruct (Z_of_lexeme b) as [y|] eqn:Eb; [|discriminate].
  intros [= <-].
  apply strict_eq_true in E1, E2, E3, E4, E5. subst.
  apply Z_of_lexeme_safe in Ea as [Sa Ea], Eb as [Sb Eb].
  unfold json_of_task, safe_timestamps. simpl. rewrite Ea, Eb. auto.
Qed.

Lemma tasks_of_json_inv (v : json) (ts : list Task) :
  tasks_of_json v = Some ts ->
  v = json_of_tasks ts /\ Forall safe_timestamps ts.
Proof.
  unfold tasks_of_json, json_of_tasks.
  destruct v as [| | | |l|ms]; try discriminate.
  revert ts. induction l as [|u l IH]; intros ts; cbn [tasks_of_list].
  - intros [= <-]. split; [reflexivity | constructor].
  - destruct (task_of_json u) as [t|] eqn:Et; [|discriminate].
    destruct (tasks_of_list l) as [ts'|]; [|discriminate].
    intros [= <-]. apply task_of_json_inv in Et as [-> St].
    destruct (IH ts' eq_refl) as [E Sts]. injection E as ->.
    split; [reflexivity | now constructor].
Qed.

Lemma is_task_collection_json_of_tasks (ts : list Task) :
  is_task_collection (json_of_tasks ts) = true.
Proof.
  unfold json_of_tasks, is_task_collection.
  induction ts as [|t ts IH]; [reflexivity|].
  cbn [List.map forallb]. rewrite IH. now destruct t.
Qed.
(* ================================================================= *)
(** ** The theme *)

(** X16.  The theme button: whatever the theme was, after a click it is
    'light' or 'dark'; 'light' and 'dark' swap, so two clicks on either
    give the state back; any other stored theme turns into 'light' at the
    first click.  Nothing but the theme changes. *)
Theorem toggleTheme_swaps (s : State) :
  (theme (toggleTheme s) = js "light" \/ theme (toggleTheme s) = js "dark")
  /\ (theme s = js "light" -> theme (toggleTheme s) = js "dark")
  /\ (theme s = js "dark" -> theme (toggleTheme s) = js "light")
  /\ (theme s <> js "light" -> theme (toggleTheme s) = js "light")
  /\ (theme s = js "light" \/ theme s = js "dark" ->
      toggleTheme (toggleTheme s) = s)
  /\ toggleTheme s = setTheme (theme (toggleTheme s)) s.
Proof.
  destruct s as [th ts f q d e et]. unfold toggleTheme, setTheme.
  cbn [theme tasks filter query draft editingId editingTitle].
  destruct (strict_eq th (js "light")) eqn:E.
  - apply strict_eq_true in E. subst th.
    split; [now right|]. split; [reflexivity|].
    split; [discriminate|]. split; [congruence|].
    split; reflexivity.
  - apply strict_eq_false in E.
    split; [now left|]. split; [congruence|].
    split; [reflexivity|]. split; [reflexivity|].
    split; [|reflexivity].
    intros [-> | ->]; [congruence | reflexivity].
Qed.

Lemma toggleTheme_swaps_witness :
  theme (toggleTheme two_tasks) = js "dark"
  /\ toggleTheme (toggleTheme two_tasks) = two_tasks
  /\ theme (toggleTheme (setTheme (js "solarized") two_tasks)) = js "light".
Proof.
  destruct (toggleTheme_swaps two_tasks) as [_ [H1 [_ [_ [H2 _]]]]].
  destruct (toggleTheme_swaps (setTheme (js "solarized") two_tasks))
    as [_ [_ [_ [H3 _]]]].
  split; [apply H1; reflexivity|].
  split; [apply H2; now left|].
  apply H3. discriminate.
Defined.

(* ================================================================= *)
(** ** Persistence *)






(** *** Timestamps stay safe integers *)






Lemma App_start_safe (st : Storage) (s : State) :
  App_start st = Some s -> Forall safe_timestamps (tasks s).
Proof.
  unfold App_start.
  destruct (initial_tasks _) as [v|]; [|discriminate].
  destruct (tasks_of_json v) as [ts|] eqn:E; [|discriminate].
  intros [= <-]. simpl. now apply tasks_of_json_inv in E.
Qed.

(** The stores [App_start] accepts: the [tasks] key is absent, or holds
    the empty string or a text [JSON.parse] rejects, and the collection is
    empty; or it holds a text that parses to the JSON value of the
    collection, whose timestamps are safe integers. *)
Lemma App_start_inv (st : Storage) (s : State) :
  App_start st = Some s ->
  s = mkState (initial_theme (getItem (js "theme") st)) (tasks s)
              All [] [] None []
  /\ Forall safe_timestamps (tasks s)
  /\ ((tasks s = []
       /\ (getItem (js "tasks") st = None
           \/ getItem (js "tasks") st = Some []
           \/ exists text, getItem (js "tasks") st = Some text
                           /\ JSON_parse text = Throw))
      \/ exists text, getItem (js "tasks") st = Some text
                      /\ JSON_parse text = Normal (json_of_tasks (tasks s))).
Proof.
  intros H. pose proof (App_start_safe st s H) as Hs.
  unfold App_start, initial_tasks, try_catch in H.
  destruct (getItem (js "tasks") st) as [text|] eqn:G.
  - destruct (truthy text) eqn:T.
    + destruct (JSON_parse text) as [v|] eqn:P.
      * destruct (tasks_of_json v) as [ts|] eqn:E; [|discriminate].
        injection H as <-. simpl. apply tasks_of_json_inv in E as [-> _].
        split; [reflexivity|]. split; [exact Hs|]. right. now exists text.
      * simpl in H. injection H as <-. simpl.
        split; [reflexivity|]. split; [constructor|]. left.
        split; [reflexivity|]. right. right. now exists text.
    + simpl in H. injection H as <-. simpl. apply truthy_false in T.
      subst text. split; [reflexivity|]. split; [constructor|]. left.
      split; [reflexivity|]. right. now left.
  - simpl in H. injection H as <-. simpl.
    split; [reflexivity|]. split; [constructor|]. left.
    split; [reflexivity|]. now left.
Qed.



(** X18.  The tasks effect and the tasks initializer fit: for every
    collection whose timestamps are safe integers, as all values of
    [Date.now()] are, the text the effect stores is not empty and
    [JSON.parse] accepts it, so the initializer takes neither its fallback
    for an empty text nor its [catch] branch, whatever code units ids and
    titles hold (quotes, backslashes, control characters, lone
    surrogates); and the value loaded is that collection itself: the same
    tasks in the same order, each with its id, title, flag and
    timestamps. *)
Theorem stored_tasks_load_back (ts : list Task) :
  Forall safe_timestamps ts ->
  JSON_stringify_tasks ts <> []
  /\ JSON_parse (JSON_stringify_tasks ts) = Normal (json_of_tasks ts)
  /\ initial_tasks (Normal (Some (JSON_stringify_tasks ts)))
     = Normal (json_of_tasks ts)
  /\ tasks_of_json (json_of_tasks ts) = Some ts
  /\ is_task_collection (json_of_tasks ts) = true.
Proof.
  intros Hs. split; [discriminate|]. split; [|split; [|split]].
  - apply JSON_parse_stringify_tasks.
  - unfold initial_tasks, try_catch.
    change (truthy (JSON_stringify_tasks ts)) with true. cbv iota.
    now rewrite JSON_parse_stringify_tasks.
  - now apply tasks_of_json_of_tasks.
  - apply is_task_collection_json_of_tasks.
Qed.

Lemma stored_tasks_load_back_witness :
  initial_tasks (Normal (Some (JSON_stringify_tasks [milk; bills])))
  = Normal (json_of_tasks [milk; bills])
  /\ tasks_of_json (json_of_tasks [milk; bills]) = Some [milk; bills].
Proof.
  destruct (stored_tasks_load_back [milk; bills]) as [_ [_ [H1 [H2 _]]]].
  - repeat constructor.
  - split; [exact H1 | exact H2].
Defined.

(* ================================================================= *)
(** ** The counter and the check box *)

Lemma remaining_as_flags (l : list Task) :
  List.length (List.filter (fun t => negb (completed t)) l)
  = List.length (List.filter negb (List.map completed l)).
Proof.
  induction l as [|a l IH]; simpl; [reflexivity|].
  destruct (completed a); simpl; now rewrite IH.
Qed.

Lemma toggled_flags_count (x : jsstring) (task : Task) (l : list Task) :
  NoDup (ids l) -> In task l -> id task = x ->
  List.length
    (List.filter negb
       (List.map (fun t => if strict_eq (id t) x
                           then negb (completed t) else completed t) l))
  = if completed task
    then S (List.length (List.filter negb (List.map completed l)))
    else pred (List.length (List.filter negb (List.map completed l))).
Proof.
  intros Hn Hin Hx. induction l as [|a l IH]; [contradiction|].
  unfold ids in Hn. simpl in Hn. inversion Hn as [|a' l' Ha Hl]; subst.
  cbn [List.map List.filter].
  destruct (strict_eq (id a) (id task)) eqn:E.
  - apply strict_eq_true in E.
    assert (a = task).
    { apply (NoDup_ids_same (a :: l)); auto. now left. }
    subst a.
    assert (R : List.map (fun t => if strict_eq (id t) (id task)
                                   then negb (completed t) else completed t) l
                = List.map completed l).
    { apply map_ext_in. intros t Ht.
      destruct (strict_eq (id t) (id task)) eqn:Et; [|reflexivity].
      exfalso. apply Ha. apply strict_eq_true in Et. rewrite <- Et.
      now apply in_map. }
    rewrite R. destruct (completed task); reflexivity.
  - destruct Hin as [-> | Hin]; [now rewrite strict_eq_refl in E|].
    specialize (IH Hl Hin).
    destruct (completed a); cbn [negb List.length]; [exact IH|].
    rewrite IH. destruct (completed task) eqn:Ec; [reflexivity|].
    assert (P : (0 < List.length (List.filter negb (List.map completed l)))%nat).
    { clear - Hin Ec. induction l as [|b l IH]; [contradiction|].
      simpl. destruct Hin as [-> | Hin].
      - rewrite Ec. simpl. lia.
      - destruct (completed b); simpl; [now apply IH | lia]. }
    lia.
Qed.

(** X19.  When ids are distinct, the check box of a task of the collection
    moves the counter of items left by exactly one: checking an open task
    lowers it by one, unchecking a completed task raises it by one; and
    the clock is read once. *)
Theorem checkbox_moves_counter_by_one (task : Task) (s : State) (w : World) :
  NoDup (ids (tasks s)) ->
  In task (tasks s) ->
  (completed task = false ->
   S (remaining (fst (handle (ClickCheckbox task) s w))) = remaining s)
  /\ (completed task = true ->
      remaining (fst (handle (ClickCheckbox task) s w)) = S (remaining s)).
Proof.
  intros Hn Hin. simpl handle. unfold remaining.
  rewrite !remaining_as_flags, toggleTask_flags.
  rewrite (toggled_flags_count (id task) task (tasks s) Hn Hin eq_refl).
  assert (P : completed task = false ->
              (0 < List.length (List.filter negb
                                  (List.map completed (tasks s))))%nat).
  { intros Ec. clear - Hin Ec. induction (tasks s) as [|b l IH];
      [contradiction|].
    simpl. destruct Hin as [-> | Hin].
    - rewrite Ec. simpl. lia.
    - destruct (completed b); simpl; [now apply IH | lia]. }
  split; intros Ec; rewrite Ec; [specialize (P Ec); lia | reflexivity].
Qed.

Lemma checkbox_moves_counter_by_one_witness :
  S (remaining (fst (handle (ClickCheckbox milk) two_tasks world_ticking)))
  = remaining two_tasks
  /\ remaining (fst (handle (ClickCheckbox bills) two_tasks world_ticking))
     = S (remaining two_tasks).
Proof.
  assert (Hn : NoDup (ids (tasks two_tasks)))
    by (repeat constructor; simpl; intuition discriminate).
  destruct (checkbox_moves_counter_by_one milk two_tasks world_ticking Hn)
    as [H1 _]; [now left|].
  destruct (checkbox_moves_counter_by_one bills two_tasks world_ticking Hn)
    as [_ H2]; [right; now left|].
  split; [apply H1 | apply H2]; reflexivity.
Defined.

(* ================================================================= *)
(** ** Stores outside the typed model, and the empty id *)

(** The store under the key 'tasks' alone. *)
Example App_start_reads_own_text_only :
  App_start (setItem (js "tasks")
     (json_text "[{'id':'a','title':'x','completed':false,'createdAt':1,'updatedAt':2}]")
     (fun _ => None))
  = Some (mkState (js "light") [mkTask (js "a") (js "x") false 1 2]
                  All [] [] None [])
  /\ App_start (setItem (js "tasks")
       (json_text "[{'id':'a','title':'x','completed':false,'createdAt':1.5,'updatedAt':2}]")
       (fun _ => None)) = None
  /\ App_start (setItem (js "tasks")
       (json_text "[{'id':'a','title':'x','completed':false,'createdAt':1e999,'updatedAt':2}]")
       (fun _ => None)) = None
  /\ App_start (setItem (js "tasks")
       (json_text "[{'id':'a','title':'x','completed':false,'createdAt':9007199254740993,'updatedAt':2}]")
       (fun _ => None)) = None
  /\ App_start (setItem (js "tasks")
       (json_text "[{'title':'x','id':'a','completed':false,'createdAt':1,'updatedAt':2}]")
       (fun _ => None)) = None
  /\ App_start (setItem (js "tasks")
       (json_text "[{'id':'a','title':'x','completed':false,'createdAt':1,'updatedAt':2,'note':'y'}]")
       (fun _ => None)) = None
  /\ App_start (setItem (js "tasks") (js "null") (fun _ => None)) = None.
Proof. vm_compute. repeat split. Qed.

(** The task with the empty id through the page itself: [Math.random()]
    answers 0 when the task is added; the user opens its editor, empties
    it and commits; the task is still there, and the editor still open. *)
Example empty_id_edit_through_the_page :
  tasks (fst (run [ChangeDraft (js "Call mum"); Submit;
                   DoubleClickTitle
                     (mkTask [] (js "Call mum") false
                             1700000000000 1700000000000);
                   ChangeEditor []; CommitEditor]
                  empty_state world_zero))
  = [mkTask [] (js "Call mum") false 1700000000000 1700000000000]
  /\ editingId
       (fst (run [ChangeDraft (js "Call mum"); Submit;
                  DoubleClickTitle
                    (mkTask [] (js "Call mum") false
                            1700000000000 1700000000000);
                  ChangeEditor []; CommitEditor]
                 empty_state world_zero))
     = Some [].
Proof. vm_compute. split; reflexivity. Qed.
